(** * BloomFilterHW: a shallow embedding of [BloomFilter]

    The Python class [BloomFilter] of [BloomFilterHW.py] keeps a bit vector,
    its length, the number of hash probes per key and a running count of the
    bits that are set.  Its methods mutate the object in place, call the
    external hash [BitHash] and can raise.  They are embedded here as
    computations in a state monad over the object's attributes that also
    records what was called (the hash oracle, the bit vector) and how the
    call ended (a value or an exception).

    Python's [int] is [Z]; the bit vector is a [list bool]; Python's floats
    are kept abstract (class [PyFloat]): their arithmetic is not modelled. *)

From Stdlib Require Import ZArith Lia.
From stdpp Require Import base list.

Local Open Scope Z_scope.

(** ** Outcomes and observations *)

(** The exceptions the code can raise: [%] and [/] by zero, the range check
    of [BitVector], and the overflow of a float operation. *)
Inductive exn : Type :=
  | ZeroDivisionError
  | ValueError
  | OverflowError.

Inductive result (A : Type) : Type :=
  | Ok (a : A)
  | Raise (e : exn).
Arguments Ok {A} a.
Arguments Raise {A} e.

(** Python floats and the three operations [BloomFilter] applies to them
    outside [__bitsNeeded]: [int / int], [int - float] and [float ** int]. *)
Class PyFloat : Type := {
  float : Type;
  int_truediv : Z -> Z -> result float;
  int_sub_float : Z -> float -> float;
  float_pow_int : float -> Z -> result float
}.

Section BloomFilter.

Context {Key : Type} `{PyFloat}.

(** The external collaborators.  [BitHash key seed] is the hash oracle, a
    function of its two arguments.  [__bitsNeeded] (lines 10-13) is float
    arithmetic from end to end ([**], [/], [int()]): it is a parameter of
    the constructor here. *)
Variable BitHash : Key -> Z -> Z.
Variable __bitsNeeded : Z -> Z -> float -> result Z.

(** The attributes set by [__init__]. *)
Record BloomFilter : Type := mkBloomFilter {
  __size : Z;
  __numKeys : Z;
  __numHashes : Z;
  __maxFalse : float;
  __bitVec : list bool;
  __numBitsSet : Z
}.

(** What a call does that a caller (or a test harness) can observe besides
    its result: the calls of the hash oracle and the accesses to the bit
    vector, in order. *)
Inductive event : Type :=
  | EvHash (key : Key) (seed : Z)
  | EvGet (pos : Z)
  | EvSet (pos : Z).

(** A run of a method on an object: the events, the object afterwards and
    the outcome.  An exception leaves the object as it was when raised. *)
Record run (A : Type) : Type := mkRun {
  tr : list event;
  st : BloomFilter;
  out : result A
}.
Arguments mkRun {A} tr st out.
Arguments tr {A} r.
Arguments st {A} r.
Arguments out {A} r.

Definition M (A : Type) : Type := BloomFilter -> run A.

#[global] Instance M_ret : MRet M := fun A a self => mkRun [] self (Ok a).

#[global] Instance M_bind : MBind M := fun A B f m self =>
  let r := m self in
  match out r with
  | Ok a => let r' := f a (st r) in mkRun (tr r ++ tr r') (st r') (out r')
  | Raise e => mkRun (tr r) (st r) (Raise e)
  end.

Definition raise {A : Type} (e : exn) : M A := fun self => mkRun [] self (Raise e).
Definition emit (e : event) : M unit := fun self => mkRun [e] self (Ok tt).
Definition attr {A : Type} (f : BloomFilter -> A) : M A := fun self => mkRun [] self (Ok (f self)).
Definition lift {A : Type} (r : result A) : M A := fun self => mkRun [] self r.

(** ** Primitives *)

(** [BitHash(key, seed)], observed. *)
Definition call_BitHash (key : Key) (seed : Z) : M Z :=
  _ ← emit (EvHash key seed); mret (BitHash key seed).

(** Python's [a % b] on integers: the sign of the divisor, an exception when
    it is zero. *)
Definition py_mod (a b : Z) : M Z :=
  if decide (b = 0) then raise ZeroDivisionError else mret (a `mod` b).

(** [BitVector(size = n)] of the external package [BitVector]: [n] bits, all
    zero; there is no vector of negative length. *)
Definition BitVector (size : Z) : result (list bool) :=
  if decide (0 <= size) then Ok (replicate (Z.to_nat size) false) else Raise ValueError.

(** The position [BitVector] reads or writes for index [pos]: a negative
    index counts from the end, an index outside [-size, size) is refused. *)
Definition bv_index (bv : list bool) (pos : Z) : result nat :=
  let n := Z.of_nat (length bv) in
  if decide (pos >= n \/ pos < - n) then Raise ValueError
  else Ok (Z.to_nat (if decide (pos < 0) then n + pos else pos)).

(** [self.__bitVec[pos]] *)
Definition bitVec_get (pos : Z) : M bool :=
  _ ← emit (EvGet pos);
  bv ← attr __bitVec;
  i ← lift (bv_index bv pos);
  mret (default false (bv !! i)).

(** [self.__bitVec[pos] = 1] *)
Definition bitVec_set1 (pos : Z) : M unit := fun self =>
  let bv := __bitVec self in
  match bv_index bv pos with
  | Ok i =>
      mkRun [EvSet pos]
        (mkBloomFilter (__size self) (__numKeys self) (__numHashes self)
           (__maxFalse self) (<[i:=true]> bv) (__numBitsSet self))
        (Ok tt)
  | Raise e => mkRun [EvSet pos] self (Raise e)
  end.

(** [self.__numBitsSet += 1] *)
Definition incr_numBitsSet : M unit := fun self =>
  mkRun []
    (mkBloomFilter (__size self) (__numKeys self) (__numHashes self)
       (__maxFalse self) (__bitVec self) (__numBitsSet self + 1))
    (Ok tt).

(** ** The methods *)

(** [__init__] (lines 19-27). *)
Definition __init__ (numKeys numHashes : Z) (maxFalsePositive : float) : result BloomFilter :=
  match __bitsNeeded numKeys numHashes maxFalsePositive with
  | Ok size =>
      match BitVector size with
      | Ok bv => Ok (mkBloomFilter size numKeys numHashes maxFalsePositive bv 0)
      | Raise e => Raise e
      end
  | Raise e => Raise e
  end.

(** One turn of the loop of [insert] (lines 36-41) with the current [seed];
    it returns the next seed. *)
Definition insert_probe (key : Key) (seed : Z) : M Z :=
  rawHash ← call_BitHash key seed;
  size ← attr __size;
  hashVal ← py_mod rawHash size;
  b ← bitVec_get hashVal;
  _ ← (if negb b then (_ ← bitVec_set1 hashVal; incr_numBitsSet) else mret tt);
  mret rawHash.

Fixpoint insert_loop (n : nat) (key : Key) (seed : Z) : M unit :=
  match n with
  | O => mret tt
  | S n' => rawHash ← insert_probe key seed; insert_loop n' key rawHash
  end.

(** [insert] (lines 33-41): [range(k)] is empty when [k <= 0]. *)
Definition insert (key : Key) : M unit :=
  k ← attr __numHashes; insert_loop (Z.to_nat k) key 0.

(** [find] (lines 45-53): the loop returns from inside on a zero bit. *)
Fixpoint find_loop (n : nat) (key : Key) (seed : Z) : M bool :=
  match n with
  | O => mret true
  | S n' =>
      rawHash ← call_BitHash key seed;
      size ← attr __size;
      hashVal ← py_mod rawHash size;
      b ← bitVec_get hashVal;
      if negb b then mret false else find_loop n' key rawHash
  end.

Definition find (key : Key) : M bool :=
  k ← attr __numHashes; find_loop (Z.to_nat k) key 0.

(** [numBitsSet] (lines 70-71). *)
Definition numBitsSet : M Z := attr __numBitsSet.

(** [falsePositiveRate] (lines 60-65). *)
Definition falsePositiveRate : M float :=
  numBitsSet_ ← numBitsSet;
  size ← attr __size;
  let numBitsZero := size - numBitsSet_ in
  prop ← (if decide (size = 0) then raise ZeroDivisionError
          else lift (int_truediv numBitsZero size));
  k ← attr __numHashes;
  lift (float_pow_int (int_sub_float 1 prop) k).

(** ** Callers *)

(** The public calls of a filter, and the object after a caller made one,
    whatever it returned or raised. *)
Inductive call : Type :=
  | Insert (key : Key)
  | Find (key : Key)
  | FalsePositiveRate
  | NumBitsSet.

Definition perform (self : BloomFilter) (c : call) : BloomFilter :=
  match c with
  | Insert key => st (insert key self)
  | Find key => st (find key self)
  | FalsePositiveRate => st (falsePositiveRate self)
  | NumBitsSet => st (numBitsSet self)
  end.

Definition perform_all (cs : list call) (self : BloomFilter) : BloomFilter :=
  fold_left perform cs self.

(** Calls that are not [insert]. *)
Definition is_query (c : call) : bool :=
  match c with Insert _ => false | _ => true end.

(** The filters a program can hold: built by [__init__], then used. *)
Inductive reachable : BloomFilter -> Prop :=
  | reachable_init numKeys numHashes maxFalsePositive self :
      __init__ numKeys numHashes maxFalsePositive = Ok self -> reachable self
  | reachable_call self c :
      reachable self -> reachable (perform self c).

(** ** Quantities the claims speak of *)

(** The number of true entries of the bit array. *)
Fixpoint count_ones (bv : list bool) : Z :=
  match bv with
  | [] => 0
  | b :: bv' => (if b then 1 else 0) + count_ones bv'
  end.

(** Whether bit [pos] of the array is set. *)
Definition bit (self : BloomFilter) (pos : Z) : bool :=
  default false (__bitVec self !! Z.to_nat pos).

(** The hash derivation as the specification words it: the chain starts at
    [seed], each raw hash is reduced modulo [bitCount] and seeds the next. *)
Fixpoint hash_indices (k : nat) (key : Key) (seed : Z) (bitCount : Z) : list Z :=
  match k with
  | O => []
  | S k' =>
      let raw := BitHash key seed in
      raw `mod` bitCount :: hash_indices k' key raw bitCount
  end.

(** The seeds of that chain, one per call of the oracle. *)
Fixpoint seed_chain (k : nat) (key : Key) (seed : Z) : list Z :=
  match k with
  | O => []
  | S k' => seed :: seed_chain k' key (BitHash key seed)
  end.

(** A membership test that looks at all [k] bits, without the early return. *)
Definition find_all_bits (key : Key) (self : BloomFilter) : bool :=
  forallb (bit self) (hash_indices (Z.to_nat (__numHashes self)) key 0 (__size self)).

(** The oracle calls and the bit positions touched, read off a trace. *)
Definition hash_calls (t : list event) : list (Key * Z) :=
  omap (fun e => match e with EvHash key seed => Some (key, seed) | _ => None end) t.

Definition probed (t : list event) : list Z :=
  omap (fun e => match e with EvHash _ _ => None | EvGet pos => Some pos | EvSet pos => Some pos end) t.

Definition reads (t : list event) : list Z :=
  omap (fun e => match e with EvGet pos => Some pos | _ => None end) t.

(** How many of the indices [idxs] a test that stops at the first zero bit
    looks at. *)
Fixpoint probes_made (test : Z -> bool) (idxs : list Z) : nat :=
  match idxs with
  | [] => O
  | p :: rest => if test p then S (probes_made test rest) else 1%nat
  end.

(** The object after bit [pos] was probed by [insert]. *)
Definition set1 (self : BloomFilter) (pos : Z) : BloomFilter :=
  if bit self pos then self
  else mkBloomFilter (__size self) (__numKeys self) (__numHashes self)
         (__maxFalse self) (<[Z.to_nat pos:=true]> (__bitVec self)) (__numBitsSet self + 1).

(** The shape every built filter has. *)
Definition well_formed (self : BloomFilter) : Prop :=
  0 <= __size self /\
  length (__bitVec self) = Z.to_nat (__size self) /\
  __numBitsSet self = count_ones (__bitVec self).

(** The keys a list of calls inserts, in order. *)
Definition inserted_keys (cs : list call) : list Key :=
  omap (fun c => match c with Insert key => Some key | _ => None end) cs.

(** Whether [pos] is one of the [k] chain positions of one of [keys], in a
    filter of [bitCount] bits. *)
Definition covered (k : nat) (bitCount : Z) (keys : list Key) (pos : Z) : bool :=
  existsb (fun key => bool_decide (pos ∈ hash_indices k key 0 bitCount)) keys.

(** The positions a trace writes to. *)
Definition writes (t : list event) : list Z :=
  omap (fun e => match e with EvSet pos => Some pos | _ => None end) t.

(** ** The driver [__main] (lines 75-125) *)

(** An open text file is the list of its lines not read yet.  [readline]
    returns the next line, and the empty string at the end of the file. *)
Variable empty_line : Key.

Definition readline (text : list Key) : Key * list Key :=
  match text with
  | [] => (empty_line, [])
  | word :: rest => (word, rest)
  end.

(** Lines 86-88: read [n] words and insert each. *)
Fixpoint insert_words (n : nat) (text : list Key) : M (list Key) :=
  match n with
  | O => mret text
  | S n' =>
      let (word, text') := readline text in
      _ ← insert word; insert_words n' text'
  end.

(** Lines 103-107: read [n] words and count those [find] does not find. *)
Fixpoint count_missing (n : nat) (text : list Key) (missing : Z) : M (Z * list Key) :=
  match n with
  | O => mret (missing, text)
  | S n' =>
      let (word, text') := readline text in
      found ← find word;
      count_missing n' text' (if negb found then missing + 1 else missing)
  end.

(** Lines 114-118: read [n] words and count those [find] finds. *)
Fixpoint count_found (n : nat) (text : list Key) (foundWords : Z) : M (Z * list Key) :=
  match n with
  | O => mret (foundWords, text)
  | S n' =>
      let (word, text') := readline text in
      found ← find word;
      count_found n' text' (if found : bool then foundWords + 1 else foundWords)
  end.

(** What [__main] prints, line by line. *)
Inductive printed : Type :=
  | Print_rate (falsePositiveRate : float)
  | Print_missing (missing : Z)
  | Print_found (foundWords : Z)
  | Print_percentage (percentage : float).

(** The body of [__main] for given [numKeys], [numHashes] and [maxFalse];
    [wordlist] is what [open] gives, both times the file is opened.  The
    result is what was printed and how the run ended. *)
Definition main_with (numKeys numHashes : Z) (maxFalse : float) (wordlist : list Key)
  : list printed * result unit :=
  match __init__ numKeys numHashes maxFalse with
  | Raise e => ([], Raise e)
  | Ok b =>
  let r1 := insert_words (Z.to_nat numKeys) wordlist b in
  match out r1 with
  | Raise e => ([], Raise e)
  | Ok _ =>
  let r2 := falsePositiveRate (st r1) in
  match out r2 with
  | Raise e => ([], Raise e)
  | Ok rate =>
  let r3 := count_missing (Z.to_nat numKeys) wordlist 0 (st r2) in
  match out r3 with
  | Raise e => ([Print_rate rate], Raise e)
  | Ok (missing, text) =>
  let r4 := count_found (Z.to_nat numKeys) text 0 (st r3) in
  match out r4 with
  | Raise e => ([Print_rate rate; Print_missing missing], Raise e)
  | Ok (foundWords, _) =>
  match (if decide (numKeys = 0) then Raise ZeroDivisionError
         else int_truediv foundWords numKeys) with
  | Raise e => ([Print_rate rate; Print_missing missing; Print_found foundWords], Raise e)
  | Ok percentage =>
      ([Print_rate rate; Print_missing missing; Print_found foundWords;
        Print_percentage percentage], Ok tt)
  end end end end end end.

(** [__main]: 100000 keys, 4 hashes; [maxFalse] is the float [.05]. *)
Definition __main (maxFalse : float) (wordlist : list Key) : list printed * result unit :=
  main_with 100000 4 maxFalse wordlist.

(** The [n] words [n] calls of [readline] return. *)
Fixpoint read_words (n : nat) (text : list Key) : list Key :=
  match n with
  | O => []
  | S n' => fst (readline text) :: read_words n' (snd (readline text))
  end.

End BloomFilter.

Arguments mkRun {Key H A} tr st out.
Arguments tr {Key H A} r.
Arguments st {Key H A} r.
Arguments out {Key H A} r.

(** ** A small instance, for closed examples *)

(** Floats that carry no information, a hash oracle on integer keys and a
    sizing that allots four bits per key. *)
Definition unit_float : PyFloat :=
  {| float := unit;
     int_truediv := fun _ _ => Ok tt;
     int_sub_float := fun _ _ => tt;
     float_pow_int := fun _ _ => Ok tt |}.

Definition sum_hash (key seed : Z) : Z := key + seed.

Definition four_per_key (numKeys numHashes : Z) (maxFalsePositive : @float unit_float) : result Z :=
  Ok (4 * numKeys).

(** The filter [BloomFilter(2, 2, p)] of that instance: eight bits, two probes. *)
Definition small_filter : @BloomFilter unit_float :=
  @mkBloomFilter unit_float 8 2 2 tt (replicate 8 false) 0.

(** That filter after three inserts. *)
Definition used_filter : @BloomFilter unit_float :=
  perform_all sum_hash [Insert 1; Insert 9; Insert 4] small_filter.

(** A sizing that allots no bit at all, and the filter
    [BloomFilter(2, 2, p)] it gives. *)
Definition no_bits (numKeys numHashes : Z) (maxFalsePositive : @float unit_float) : result Z :=
  Ok 0.

Definition empty_filter : @BloomFilter unit_float :=
  @mkBloomFilter unit_float 0 2 2 tt [] 0.

(** A filter that probes no bit. *)
Definition no_probe_filter : @BloomFilter unit_float :=
  @mkBloomFilter unit_float 8 2 0 tt (replicate 8 false) 0.

(** * Properties *)

Section Properties.

Context {Key : Type} `{PyFloat}.
Variable BitHash : Key -> Z -> Z.
Variable __bitsNeeded : Z -> Z -> float -> result Z.

Implicit Types (self : BloomFilter) (key : Key) (seed pos : Z) (bv : list bool).

(** *** The bit vector *)

Lemma bv_index_in_range bv pos :
  0 <= pos < Z.of_nat (length bv) -> bv_index bv pos = Ok (Z.to_nat pos).
Proof.
  intros Hpos. unfold bv_index.
  destruct (decide (pos >= Z.of_nat (length bv) \/ pos < - Z.of_nat (length bv))) as [Hout|_].
  - lia.
  - destruct (decide (pos < 0)); [lia | reflexivity].
Qed.

Lemma count_ones_bounds bv : 0 <= count_ones bv <= Z.of_nat (length bv).
Proof.
  induction bv as [|b bv IH]; simpl length; simpl count_ones; [lia|].
  destruct b; lia.
Qed.

Lemma count_ones_replicate (n : nat) : count_ones (replicate n false) = 0.
Proof. induction n as [|n IH]; simpl; [reflexivity | exact IH]. Qed.

Lemma count_ones_set bv (i : nat) :
  bv !! i = Some false -> count_ones (<[i:=true]> bv) = count_ones bv + 1.
Proof.
  revert i. induction bv as [|b bv IH]; intros [|i] Hi; simpl in *; try discriminate.
  - injection Hi as ->. lia.
  - rewrite (IH i Hi). lia.
Qed.

(** *** Running a computation step by step *)

Lemma bind_run {A B : Type} (m : @M Key H A) (f : A -> @M Key H B) self t s a t' s' o :
  m self = mkRun t s (Ok a) ->
  f a s = mkRun t' s' o ->
  (x ← m; f x) self = mkRun (t ++ t') s' o.
Proof. intros Hm Hf. unfold mbind, M_bind. rewrite Hm. cbn. rewrite Hf. reflexivity. Qed.

Lemma bind_unchanged {A B : Type} (m : @M Key H A) (f : A -> @M Key H B) self :
  st (m self) = self ->
  (forall a, st (f a self) = self) ->
  st ((x ← m; f x) self) = self.
Proof.
  intros Hm Hf. unfold mbind, M_bind. cbv zeta.
  destruct (out (m self)) as [a|e]; cbn; [rewrite Hm; apply Hf | exact Hm].
Qed.

Lemma call_BitHash_run key seed self :
  call_BitHash BitHash key seed self = mkRun [EvHash key seed] self (Ok (BitHash key seed)).
Proof. reflexivity. Qed.

Lemma py_mod_run (a b : Z) self :
  b <> 0 -> @py_mod Key H a b self = mkRun [] self (Ok (a `mod` b)).
Proof. intros Hb. unfold py_mod. destruct (decide (b = 0)); [contradiction | reflexivity]. Qed.

Lemma bitVec_get_run pos self :
  0 <= pos < Z.of_nat (length (__bitVec self)) ->
  @bitVec_get Key H pos self = mkRun [EvGet pos] self (Ok (bit self pos)).
Proof.
  intros Hpos. unfold bitVec_get.
  eapply (bind_run _ _ _ [EvGet pos]); [reflexivity|].
  eapply (bind_run _ _ _ []); [reflexivity|].
  eapply (bind_run _ _ _ []); [|reflexivity].
  unfold lift. rewrite (bv_index_in_range _ _ Hpos). reflexivity.
Qed.

Lemma bitVec_get_st pos self : st (@bitVec_get Key H pos self) = self.
Proof.
  unfold bitVec_get. repeat (apply bind_unchanged; [reflexivity | intros ?]). reflexivity.
Qed.

Lemma bitVec_set1_run pos self :
  0 <= pos < Z.of_nat (length (__bitVec self)) ->
  @bitVec_set1 Key H pos self =
    mkRun [EvSet pos]
      (mkBloomFilter (__size self) (__numKeys self) (__numHashes self) (__maxFalse self)
         (<[Z.to_nat pos:=true]> (__bitVec self)) (__numBitsSet self))
      (Ok tt).
Proof. intros Hpos. unfold bitVec_set1. rewrite (bv_index_in_range _ _ Hpos). reflexivity. Qed.

(** *** One probe of [insert] *)

Lemma insert_probe_run key seed self :
  0 < __size self ->
  length (__bitVec self) = Z.to_nat (__size self) ->
  insert_probe BitHash key seed self =
    let pos := BitHash key seed `mod` __size self in
    mkRun (EvHash key seed :: EvGet pos :: if bit self pos then [] else [EvSet pos])
          (set1 self pos) (Ok (BitHash key seed)).
Proof.
  intros Hsize Hlen. cbv zeta.
  pose proof (Z.mod_pos_bound (BitHash key seed) (__size self) Hsize) as Hpos.
  set (pos := BitHash key seed `mod` __size self) in *.
  assert (Hin : 0 <= pos < Z.of_nat (length (__bitVec self))) by lia.
  unfold insert_probe.
  eapply (bind_run _ _ _ [EvHash key seed] _ _ (EvGet pos :: _)); [apply call_BitHash_run|].
  eapply (bind_run _ _ _ []); [reflexivity|].
  eapply (bind_run _ _ _ []); [apply py_mod_run; lia|]. fold pos.
  eapply (bind_run _ _ _ [EvGet pos]); [apply (bitVec_get_run pos self Hin)|].
  unfold set1. destruct (bit self pos); cbn [negb].
  - eapply (bind_run _ _ _ []); reflexivity.
  - eapply (bind_run _ _ _ [EvSet pos]); [|reflexivity].
    eapply (bind_run _ _ _ [EvSet pos] _ _ []); [apply (bitVec_set1_run pos self Hin)|].
    reflexivity.
Qed.

Lemma insert_probe_zero key seed self :
  __size self = 0 ->
  insert_probe BitHash key seed self = mkRun [EvHash key seed] self (Raise ZeroDivisionError).
Proof.
  intros Hsize.
  unfold insert_probe, call_BitHash, py_mod, emit, attr, raise, mbind, M_bind, mret, M_ret.
  cbn. rewrite Hsize. reflexivity.
Qed.

(** *** Sequencing *)

Lemma bind_ok {A B : Type} (m : @M Key H A) (f : A -> @M Key H B) self t s a :
  m self = mkRun t s (Ok a) ->
  (x ← m; f x) self = mkRun (t ++ tr (f a s)) (st (f a s)) (out (f a s)).
Proof. intros Hm. unfold mbind, M_bind. rewrite Hm. reflexivity. Qed.

Lemma bind_raise {A B : Type} (m : @M Key H A) (f : A -> @M Key H B) self t s e :
  m self = mkRun t s (Raise e) ->
  (x ← m; f x) self = mkRun t s (Raise e).
Proof. intros Hm. unfold mbind, M_bind. rewrite Hm. reflexivity. Qed.

(** *** The object after a probe *)

Lemma set1_size self pos : __size (set1 self pos) = __size self.
Proof. unfold set1. destruct (bit self pos); reflexivity. Qed.

Lemma set1_numHashes self pos : __numHashes (set1 self pos) = __numHashes self.
Proof. unfold set1. destruct (bit self pos); reflexivity. Qed.

Lemma set1_length self pos : length (__bitVec (set1 self pos)) = length (__bitVec self).
Proof.
  unfold set1. destruct (bit self pos); [reflexivity|].
  cbn. apply length_insert.
Qed.

Lemma set1_fixed self pos : bit self pos = true -> set1 self pos = self.
Proof. unfold set1. intros ->. reflexivity. Qed.

Lemma set1_numBitsSet self pos :
  __numBitsSet (set1 self pos) = __numBitsSet self + (if bit self pos then 0 else 1).
Proof. unfold set1. destruct (bit self pos); cbn; lia. Qed.

Lemma set1_bit_probed self pos :
  0 <= pos < Z.of_nat (length (__bitVec self)) -> bit (set1 self pos) pos = true.
Proof.
  intros Hpos. unfold set1. destruct (bit self pos) eqn:Hb; [exact Hb|].
  unfold bit. cbn. rewrite list_lookup_insert_eq by lia. reflexivity.
Qed.

Lemma set1_bit_kept self pos p : bit self p = true -> bit (set1 self pos) p = true.
Proof.
  intros Hp. unfold set1. destruct (bit self pos) eqn:Hb; [exact Hp|].
  unfold bit in *. cbn.
  destruct (decide (Z.to_nat pos = Z.to_nat p)) as [Heq|Hne].
  - rewrite Heq in Hb. congruence.
  - rewrite list_lookup_insert_ne by exact Hne. exact Hp.
Qed.

Lemma set1_well_formed self pos :
  well_formed self -> 0 <= pos < __size self -> well_formed (set1 self pos).
Proof.
  intros (Hsize & Hlen & Hcount) Hpos. unfold set1, bit.
  destruct (__bitVec self !! Z.to_nat pos) as [[|]|] eqn:Hb; cbn.
  - repeat split; assumption.
  - repeat split; cbn; [assumption | rewrite length_insert; assumption |].
    rewrite (count_ones_set _ _ Hb). lia.
  - apply lookup_ge_None in Hb. lia.
Qed.

(** *** The loop of [insert] *)

Lemma hash_indices_in_range (n : nat) key seed (m : Z) :
  0 < m -> Forall (fun p => 0 <= p < m) (hash_indices BitHash n key seed m).
Proof.
  intros Hm. revert seed. induction n as [|n IH]; intros seed; cbn.
  - constructor.
  - constructor; [apply Z.mod_pos_bound; exact Hm | apply IH].
Qed.

Lemma hash_indices_length (n : nat) key seed (m : Z) :
  length (hash_indices BitHash n key seed m) = n.
Proof. revert seed. induction n as [|n IH]; intros seed; cbn; [reflexivity | f_equal; apply IH]. Qed.

Lemma seed_chain_length (n : nat) key seed : length (seed_chain BitHash n key seed) = n.
Proof. revert seed. induction n as [|n IH]; intros seed; cbn; [reflexivity | f_equal; apply IH]. Qed.

Lemma insert_loop_run (n : nat) key seed self :
  0 < __size self ->
  length (__bitVec self) = Z.to_nat (__size self) ->
  let r := insert_loop BitHash n key seed self in
  let idxs := hash_indices BitHash n key seed (__size self) in
  st r = fold_left set1 idxs self /\
  out r = Ok tt /\
  hash_calls (tr r) = map (pair key) (seed_chain BitHash n key seed) /\
  reads (tr r) = idxs /\
  Forall (fun p => 0 <= p < __size self) (probed (tr r)).
Proof.
  revert seed self. induction n as [|n IH]; intros seed self Hsize Hlen; cbn zeta.
  - cbn. repeat split; constructor.
  - cbn [insert_loop hash_indices seed_chain].
    rewrite (bind_ok _ _ _ _ _ _ (insert_probe_run key seed self Hsize Hlen)).
    cbn [tr st out fold_left map].
    set (pos := BitHash key seed `mod` __size self).
    assert (Hpos : 0 <= pos < __size self) by (apply Z.mod_pos_bound; exact Hsize).
    destruct (IH (BitHash key seed) (set1 self pos)) as (Hst & Hout & Hcalls & Hreads & Hprobed).
    { rewrite set1_size. exact Hsize. }
    { rewrite set1_length, set1_size. exact Hlen. }
    rewrite set1_size in Hst, Hreads, Hprobed.
    repeat split.
    + exact Hst.
    + exact Hout.
    + unfold hash_calls in *. destruct (bit self pos); cbn; rewrite Hcalls; reflexivity.
    + unfold reads in *. destruct (bit self pos); cbn; rewrite Hreads; reflexivity.
    + unfold probed in *.
      destruct (bit self pos); cbn; repeat (apply Forall_cons; split; [exact Hpos|]); exact Hprobed.
Qed.

(** *** The loop of [find] *)

Lemma find_loop_st (n : nat) key seed self : st (find_loop BitHash n key seed self) = self.
Proof.
  revert seed. induction n as [|n IH]; intros seed; cbn [find_loop]; [reflexivity|].
  apply bind_unchanged; [reflexivity | intros rawHash].
  apply bind_unchanged; [reflexivity | intros size].
  apply bind_unchanged; [unfold py_mod; destruct (decide (size = 0)); reflexivity | intros hashVal].
  apply bind_unchanged; [apply bitVec_get_st | intros b].
  destruct b; cbn [negb]; [apply IH | reflexivity].
Qed.

Lemma find_loop_step (n : nat) key seed self :
  0 < __size self ->
  length (__bitVec self) = Z.to_nat (__size self) ->
  find_loop BitHash (S n) key seed self =
    let pos := BitHash key seed `mod` __size self in
    if bit self pos then
      let r := find_loop BitHash n key (BitHash key seed) self in
      mkRun (EvHash key seed :: EvGet pos :: tr r) (st r) (out r)
    else mkRun [EvHash key seed; EvGet pos] self (Ok false).
Proof.
  intros Hsize Hlen. cbv zeta.
  pose proof (Z.mod_pos_bound (BitHash key seed) (__size self) Hsize) as Hpos.
  set (pos := BitHash key seed `mod` __size self) in *.
  assert (Hin : 0 <= pos < Z.of_nat (length (__bitVec self))) by lia.
  cbn [find_loop].
  destruct (bit self pos) eqn:Hb.
  - eapply (bind_run _ _ _ [EvHash key seed] _ _ (EvGet pos :: _));
      [apply call_BitHash_run|].
    eapply (bind_run _ _ _ []); [reflexivity|].
    eapply (bind_run _ _ _ []); [apply py_mod_run; lia|]. fold pos.
    eapply (bind_run _ _ _ [EvGet pos]); [apply (bitVec_get_run pos self Hin)|].
    rewrite Hb. cbn [negb]. destruct (find_loop BitHash n key (BitHash key seed) self).
    reflexivity.
  - eapply (bind_run _ _ _ [EvHash key seed] _ _ [EvGet pos]); [apply call_BitHash_run|].
    eapply (bind_run _ _ _ []); [reflexivity|].
    eapply (bind_run _ _ _ []); [apply py_mod_run; lia|]. fold pos.
    eapply (bind_run _ _ _ [EvGet pos] _ _ []); [apply (bitVec_get_run pos self Hin)|].
    rewrite Hb. reflexivity.
Qed.

Lemma probes_made_le (test : Z -> bool) (idxs : list Z) :
  (probes_made test idxs <= length idxs)%nat.
Proof. induction idxs as [|p idxs IH]; cbn; [lia|]. destruct (test p); lia. Qed.

Lemma probes_made_all (test : Z -> bool) (idxs : list Z) :
  forallb test idxs = true -> probes_made test idxs = length idxs.
Proof.
  induction idxs as [|p idxs IH]; cbn; [reflexivity|].
  destruct (test p); cbn; [intros Hall; f_equal; apply IH, Hall | discriminate].
Qed.

Lemma find_loop_run (n : nat) key seed self :
  0 < __size self ->
  length (__bitVec self) = Z.to_nat (__size self) ->
  let r := find_loop BitHash n key seed self in
  let idxs := hash_indices BitHash n key seed (__size self) in
  let m := probes_made (bit self) idxs in
  out r = Ok (forallb (bit self) idxs) /\
  hash_calls (tr r) = map (pair key) (take m (seed_chain BitHash n key seed)) /\
  reads (tr r) = take m idxs /\
  probed (tr r) = reads (tr r).
Proof.
  intros Hsize Hlen. revert seed. induction n as [|n IH]; intros seed; cbn zeta.
  - cbn. repeat split.
  - rewrite (find_loop_step n key seed self Hsize Hlen). cbv zeta.
    cbn [hash_indices seed_chain forallb probes_made].
    destruct (bit self (BitHash key seed `mod` __size self)).
    + destruct (IH (BitHash key seed)) as (Hout & Hcalls & Hreads & Hprobed).
      cbn [tr st out andb take map]. repeat split.
      * exact Hout.
      * unfold hash_calls in *. cbn. rewrite Hcalls. reflexivity.
      * unfold reads in *. cbn. rewrite Hreads. reflexivity.
      * unfold probed, reads in *. cbn. rewrite Hprobed. reflexivity.
    + cbn. repeat split.
Qed.

(** *** The methods that only read *)

Lemma find_st key self : st (find BitHash key self) = self.
Proof.
  unfold find. rewrite (bind_ok _ _ self [] self (__numHashes self)) by reflexivity.
  cbn. apply find_loop_st.
Qed.

Lemma numBitsSet_st self : st (@numBitsSet Key H self) = self.
Proof. reflexivity. Qed.

Lemma falsePositiveRate_st self : st (@falsePositiveRate Key H self) = self.
Proof.
  unfold falsePositiveRate, numBitsSet, attr, lift, raise, mbind, M_bind, mret, M_ret.
  cbn. destruct (decide (__size self = 0)); cbn; [reflexivity|].
  destruct (int_truediv _ _); reflexivity.
Qed.

Lemma perform_query self (c : call) : is_query c = true -> perform BitHash self c = self.
Proof.
  destruct c as [key|key| |]; cbn; intros Hq.
  - discriminate.
  - apply find_st.
  - apply falsePositiveRate_st.
  - apply numBitsSet_st.
Qed.

(** *** The object after all the probes of one [insert] *)

Lemma fold_set1_size (idxs : list Z) self : __size (fold_left set1 idxs self) = __size self.
Proof.
  revert self. induction idxs as [|p idxs IH]; intros self; cbn; [reflexivity|].
  rewrite IH. apply set1_size.
Qed.

Lemma fold_set1_numHashes (idxs : list Z) self :
  __numHashes (fold_left set1 idxs self) = __numHashes self.
Proof.
  revert self. induction idxs as [|p idxs IH]; intros self; cbn; [reflexivity|].
  rewrite IH. apply set1_numHashes.
Qed.

Lemma fold_set1_well_formed (idxs : list Z) self :
  well_formed self -> Forall (fun p => 0 <= p < __size self) idxs ->
  well_formed (fold_left set1 idxs self).
Proof.
  revert self. induction idxs as [|p idxs IH]; intros self Hwf Hin; cbn; [exact Hwf|].
  inversion Hin as [|? ? Hp Hrest]; subst.
  apply IH; [apply set1_well_formed; assumption | rewrite set1_size; exact Hrest].
Qed.

Lemma fold_set1_bit_kept (idxs : list Z) self p :
  bit self p = true -> bit (fold_left set1 idxs self) p = true.
Proof.
  revert self. induction idxs as [|q idxs IH]; intros self Hp; cbn; [exact Hp|].
  apply IH, set1_bit_kept, Hp.
Qed.

Lemma fold_set1_bits_set (idxs : list Z) self :
  Forall (fun p => 0 <= p < Z.of_nat (length (__bitVec self))) idxs ->
  forallb (bit (fold_left set1 idxs self)) idxs = true.
Proof.
  revert self. induction idxs as [|q idxs IH]; intros self Hin; cbn; [reflexivity|].
  inversion Hin as [|? ? Hq Hrest]; subst.
  apply andb_true_intro; split.
  - apply fold_set1_bit_kept, set1_bit_probed, Hq.
  - apply IH. rewrite set1_length. exact Hrest.
Qed.

Lemma fold_set1_numBitsSet (idxs : list Z) self :
  __numBitsSet self <= __numBitsSet (fold_left set1 idxs self).
Proof.
  revert self. induction idxs as [|q idxs IH]; intros self; cbn; [lia|].
  specialize (IH (set1 self q)). rewrite set1_numBitsSet in IH.
  destruct (bit self q); lia.
Qed.

Lemma fold_set1_fixed (idxs : list Z) self :
  forallb (bit self) idxs = true -> fold_left set1 idxs self = self.
Proof.
  induction idxs as [|q idxs IH]; cbn; [reflexivity|].
  intros Hall. apply andb_prop in Hall as [Hq Hrest].
  rewrite (set1_fixed _ _ Hq). apply IH, Hrest.
Qed.

(** *** [insert] as a whole *)

Lemma insert_unfold key self :
  insert BitHash key self = insert_loop BitHash (Z.to_nat (__numHashes self)) key 0 self.
Proof.
  unfold insert. rewrite (bind_ok _ _ self [] self (__numHashes self)) by reflexivity.
  destruct (insert_loop _ _ _ _ _); reflexivity.
Qed.

Lemma find_unfold key self :
  find BitHash key self = find_loop BitHash (Z.to_nat (__numHashes self)) key 0 self.
Proof.
  unfold find. rewrite (bind_ok _ _ self [] self (__numHashes self)) by reflexivity.
  destruct (find_loop _ _ _ _ _); reflexivity.
Qed.

Lemma insert_st_zero key self : __size self = 0 -> st (insert BitHash key self) = self.
Proof.
  intros Hsize. rewrite insert_unfold.
  destruct (Z.to_nat (__numHashes self)) as [|n]; cbn [insert_loop]; [reflexivity|].
  rewrite (bind_raise _ _ _ _ _ _ (insert_probe_zero key 0 self Hsize)). reflexivity.
Qed.

Lemma insert_st key self :
  0 < __size self ->
  length (__bitVec self) = Z.to_nat (__size self) ->
  st (insert BitHash key self) =
    fold_left set1 (hash_indices BitHash (Z.to_nat (__numHashes self)) key 0 (__size self)) self.
Proof.
  intros Hsize Hlen. rewrite insert_unfold.
  apply (insert_loop_run _ key 0 self Hsize Hlen).
Qed.

(** *** What every call preserves *)

Lemma perform_cases self (c : call) :
  well_formed self ->
  perform BitHash self c = self \/
  (0 < __size self /\
   exists idxs, Forall (fun p => 0 <= p < __size self) idxs /\
     perform BitHash self c = fold_left set1 idxs self).
Proof.
  intros (Hsize & Hlen & Hcount).
  destruct (is_query c) eqn:Hq; [left; apply perform_query, Hq|].
  destruct c as [key|key| |]; try discriminate. cbn [perform].
  destruct (decide (__size self = 0)) as [Hz|Hnz].
  - left. apply insert_st_zero, Hz.
  - right. split; [lia|]. eexists. split; [|apply insert_st; [lia | exact Hlen]].
    apply hash_indices_in_range. lia.
Qed.

Lemma perform_well_formed self (c : call) :
  well_formed self -> well_formed (perform BitHash self c).
Proof.
  intros Hwf. destruct (perform_cases self c Hwf) as [->|(_ & idxs & Hin & ->)];
    [exact Hwf | apply fold_set1_well_formed; assumption].
Qed.

Lemma perform_size self (c : call) :
  well_formed self -> __size (perform BitHash self c) = __size self.
Proof.
  intros Hwf. destruct (perform_cases self c Hwf) as [->|(_ & idxs & Hin & ->)];
    [reflexivity | apply fold_set1_size].
Qed.

Lemma perform_numHashes self (c : call) :
  well_formed self -> __numHashes (perform BitHash self c) = __numHashes self.
Proof.
  intros Hwf. destruct (perform_cases self c Hwf) as [->|(_ & idxs & Hin & ->)];
    [reflexivity | apply fold_set1_numHashes].
Qed.

Lemma perform_bit_kept self (c : call) p :
  well_formed self -> bit self p = true -> bit (perform BitHash self c) p = true.
Proof.
  intros Hwf Hp. destruct (perform_cases self c Hwf) as [->|(_ & idxs & Hin & ->)];
    [exact Hp | apply fold_set1_bit_kept, Hp].
Qed.

Lemma perform_numBitsSet self (c : call) :
  well_formed self -> __numBitsSet self <= __numBitsSet (perform BitHash self c).
Proof.
  intros Hwf. destruct (perform_cases self c Hwf) as [->|(_ & idxs & Hin & ->)];
    [lia | apply fold_set1_numBitsSet].
Qed.

Lemma init_well_formed (numKeys numHashes : Z) (maxFalsePositive : float) self :
  __init__ __bitsNeeded numKeys numHashes maxFalsePositive = Ok self ->
  well_formed self /\
  __bitsNeeded numKeys numHashes maxFalsePositive = Ok (__size self) /\
  __numHashes self = numHashes /\
  __numBitsSet self = 0 /\
  __bitVec self = replicate (Z.to_nat (__size self)) false.
Proof.
  unfold __init__, BitVector.
  destruct (__bitsNeeded numKeys numHashes maxFalsePositive) as [size|e]; [|discriminate].
  destruct (decide (0 <= size)) as [Hsize|_]; [|discriminate].
  intros [= <-]. cbn. repeat split; try assumption.
  - apply length_replicate.
  - symmetry. apply count_ones_replicate.
Qed.

Lemma reachable_well_formed self :
  reachable BitHash __bitsNeeded self -> well_formed self.
Proof.
  induction 1 as [numKeys numHashes maxFalsePositive self Hinit | self c _ IH].
  - apply (init_well_formed _ _ _ _ Hinit).
  - apply perform_well_formed, IH.
Qed.

(** *** Sequences of calls *)

Lemma perform_all_well_formed (cs : list call) self :
  well_formed self -> well_formed (perform_all BitHash cs self).
Proof.
  revert self. induction cs as [|c cs IH]; intros self Hwf; cbn; [exact Hwf|].
  apply IH, perform_well_formed, Hwf.
Qed.

Lemma perform_all_size (cs : list call) self :
  well_formed self -> __size (perform_all BitHash cs self) = __size self.
Proof.
  revert self. induction cs as [|c cs IH]; intros self Hwf; cbn; [reflexivity|].
  unfold perform_all in IH. rewrite IH by (apply perform_well_formed, Hwf).
  apply perform_size, Hwf.
Qed.

Lemma perform_all_numHashes (cs : list call) self :
  well_formed self -> __numHashes (perform_all BitHash cs self) = __numHashes self.
Proof.
  revert self. induction cs as [|c cs IH]; intros self Hwf; cbn; [reflexivity|].
  unfold perform_all in IH. rewrite IH by (apply perform_well_formed, Hwf).
  apply perform_numHashes, Hwf.
Qed.

Lemma perform_all_bit_kept (cs : list call) self p :
  well_formed self -> bit self p = true -> bit (perform_all BitHash cs self) p = true.
Proof.
  revert self. induction cs as [|c cs IH]; intros self Hwf Hp; cbn; [exact Hp|].
  apply IH; [apply perform_well_formed, Hwf | apply perform_bit_kept; assumption].
Qed.

Lemma perform_all_numBitsSet (cs : list call) self :
  well_formed self -> __numBitsSet self <= __numBitsSet (perform_all BitHash cs self).
Proof.
  revert self. induction cs as [|c cs IH]; intros self Hwf; cbn; [lia|].
  specialize (IH _ (perform_well_formed self c Hwf)). unfold perform_all in IH.
  pose proof (perform_numBitsSet self c Hwf). lia.
Qed.

Lemma perform_all_queries (cs : list call) self :
  forallb is_query cs = true -> perform_all BitHash cs self = self.
Proof.
  induction cs as [|c cs IH]; cbn; [reflexivity|].
  intros Hq. apply andb_prop in Hq as [Hc Hcs].
  rewrite (perform_query self c Hc). apply IH, Hcs.
Qed.

Lemma reachable_perform_all (cs : list call) self :
  reachable BitHash __bitsNeeded self ->
  reachable BitHash __bitsNeeded (perform_all BitHash cs self).
Proof.
  revert self. induction cs as [|c cs IH]; intros self Hr; cbn; [exact Hr|].
  apply IH, reachable_call, Hr.
Qed.

Lemma forallb_bit_kept (cs : list call) self (idxs : list Z) :
  well_formed self -> forallb (bit self) idxs = true ->
  forallb (bit (perform_all BitHash cs self)) idxs = true.
Proof.
  intros Hwf. rewrite !forallb_forall. intros Hall p Hp.
  apply perform_all_bit_kept; [exact Hwf | apply Hall, Hp].
Qed.

(** [find] on a built filter of positive size: the outcome is the
    conjunction of the [k] bits of the key's chain. *)
Lemma find_out key self :
  well_formed self -> 0 < __size self ->
  out (find BitHash key self) = Ok (find_all_bits BitHash key self).
Proof.
  intros (_ & Hlen & _) Hsize. rewrite find_unfold.
  apply (find_loop_run _ key 0 self Hsize Hlen).
Qed.

(** A key whose chain bits are all set is not changed by [insert]. *)
Lemma insert_found key self :
  well_formed self -> 0 < __size self ->
  find_all_bits BitHash key self = true -> st (insert BitHash key self) = self.
Proof.
  intros (_ & Hlen & _) Hsize Hall.
  rewrite (insert_st key self Hsize Hlen). apply fold_set1_fixed, Hall.
Qed.

(** After [insert key] the chain bits of [key] are all set. *)
Lemma insert_sets_chain key self :
  well_formed self -> 0 < __size self ->
  find_all_bits BitHash key (st (insert BitHash key self)) = true.
Proof.
  intros (Hsz & Hlen & _) Hsize. unfold find_all_bits.
  rewrite (insert_st key self Hsize Hlen), fold_set1_size, fold_set1_numHashes.
  apply fold_set1_bits_set.
  eapply Forall_impl; [apply hash_indices_in_range, Hsize|].
  cbn. intros p Hp. lia.
Qed.

(** ** The claims *)

(** C1 (no false negatives).  On a built filter of positive size, once
    [insert key] has been called, [find key] returns [True]: right after the
    insert ([cs] empty) and after any further calls [cs], inserts of other
    keys among them. *)
Theorem no_false_negatives self key (cs : list call) :
  reachable BitHash __bitsNeeded self ->
  0 < __size self ->
  out (find BitHash key (perform_all BitHash (Insert key :: cs) self)) = Ok true.
Proof.
  intros Hr Hsize. pose proof (reachable_well_formed self Hr) as Hwf.
  cbn [perform_all fold_left perform].
  set (s1 := st (insert BitHash key self)).
  assert (Hwf1 : well_formed s1) by apply (perform_well_formed self (Insert key) Hwf).
  assert (Hsz1 : __size s1 = __size self) by apply (perform_size self (Insert key) Hwf).
  assert (Hk1 : __numHashes s1 = __numHashes self)
    by apply (perform_numHashes self (Insert key) Hwf).
  pose proof (insert_sets_chain key self Hwf Hsize) as Hset. fold s1 in Hset.
  change (fold_left (perform BitHash) cs s1) with (perform_all BitHash cs s1).
  rewrite find_out.
  - f_equal. unfold find_all_bits in *.
    rewrite perform_all_size, perform_all_numHashes by exact Hwf1.
    apply forallb_bit_kept; assumption.
  - apply perform_all_well_formed, Hwf1.
  - rewrite perform_all_size by exact Hwf1. lia.
Qed.

(** C2 (counter invariant).  In every filter a program can hold,
    [__numBitsSet] is the number of true entries of the bit array; and one
    probe of [insert] adds one to it exactly when the probed bit goes from
    false to true, leaving the whole object as it was when the bit is
    already true. *)
Theorem counter_invariant self :
  reachable BitHash __bitsNeeded self ->
  __numBitsSet self = count_ones (__bitVec self) /\
  forall key seed, 0 < __size self ->
    let pos := BitHash key seed `mod` __size self in
    let self' := st (insert_probe BitHash key seed self) in
    (bit self pos = false ->
       bit self' pos = true /\
       __numBitsSet self' = __numBitsSet self + 1 /\
       count_ones (__bitVec self') = count_ones (__bitVec self) + 1) /\
    (bit self pos = true -> self' = self).
Proof.
  intros Hr. pose proof (reachable_well_formed self Hr) as Hwf.
  destruct Hwf as (Hsz & Hlen & Hcount). split; [exact Hcount|].
  intros key seed Hsize pos self'.
  assert (Hpos : 0 <= pos < __size self) by (apply Z.mod_pos_bound; exact Hsize).
  assert (Hst : self' = set1 self pos).
  { unfold self'. rewrite (insert_probe_run key seed self Hsize Hlen). reflexivity. }
  assert (Hwf' : well_formed (set1 self pos))
    by (apply set1_well_formed; [repeat split; assumption | exact Hpos]).
  split.
  - intros Hb. rewrite Hst. repeat split.
    + apply set1_bit_probed. lia.
    + rewrite set1_numBitsSet, Hb. reflexivity.
    + destruct Hwf' as (_ & _ & <-). rewrite set1_numBitsSet, Hb. lia.
  - intros Hb. rewrite Hst. apply set1_fixed, Hb.
Qed.

(** C5 (monotonic fill).  Over any calls [cs] made on a built filter, the
    value of [numBitsSet()] does not decrease and stays at most the number
    of bits, which does not change; a bit that is set stays set. *)
Theorem monotonic_fill self (cs : list call) :
  reachable BitHash __bitsNeeded self ->
  (exists a b : Z,
     out (@numBitsSet Key H self) = Ok a /\
     out (@numBitsSet Key H (perform_all BitHash cs self)) = Ok b /\
     a <= b <= __size self) /\
  __size (perform_all BitHash cs self) = __size self /\
  length (__bitVec (perform_all BitHash cs self)) = length (__bitVec self) /\
  forall pos, bit self pos = true -> bit (perform_all BitHash cs self) pos = true.
Proof.
  intros Hr. pose proof (reachable_well_formed self Hr) as Hwf.
  pose proof (perform_all_well_formed cs self Hwf) as (Hsz' & Hlen' & Hcount').
  pose proof (perform_all_size cs self Hwf) as Hsize.
  pose proof (perform_all_numBitsSet cs self Hwf) as Hmono.
  pose proof (count_ones_bounds (__bitVec (perform_all BitHash cs self))) as Hb.
  destruct Hwf as (Hsz & Hlen & Hcount).
  repeat split.
  - exists (__numBitsSet self), (__numBitsSet (perform_all BitHash cs self)).
    repeat split; [exact Hmono | lia].
  - exact Hsize.
  - lia.
  - intros pos Hp. apply perform_all_bit_kept; [repeat split; assumption | exact Hp].
Qed.

(** C7, as the code has it (oracle calls).  On a built filter of positive
    size [insert] calls the oracle exactly [k] times.  [find] stops at the
    first zero bit: it calls the oracle once per bit it looks at, at most
    [k] times, and exactly [k] times when it returns [True]; what it
    returns is what a test of all [k] bits returns. *)
Theorem oracle_calls self key :
  reachable BitHash __bitsNeeded self ->
  0 < __size self ->
  length (hash_calls (tr (insert BitHash key self))) = Z.to_nat (__numHashes self) /\
  length (hash_calls (tr (find BitHash key self))) =
    probes_made (bit self)
      (hash_indices BitHash (Z.to_nat (__numHashes self)) key 0 (__size self)) /\
  (length (hash_calls (tr (find BitHash key self))) <= Z.to_nat (__numHashes self))%nat /\
  (out (find BitHash key self) = Ok true ->
     length (hash_calls (tr (find BitHash key self))) = Z.to_nat (__numHashes self)) /\
  out (find BitHash key self) = Ok (find_all_bits BitHash key self).
Proof.
  intros Hr Hsize. pose proof (reachable_well_formed self Hr) as Hwf.
  pose proof Hwf as (_ & Hlen & _).
  set (k := Z.to_nat (__numHashes self)).
  set (idxs := hash_indices BitHash k key 0 (__size self)).
  destruct (insert_loop_run k key 0 self Hsize Hlen) as (_ & _ & Hicalls & _ & _).
  destruct (find_loop_run k key 0 self Hsize Hlen) as (Hfout & Hfcalls & _ & _).
  fold idxs in Hfout, Hfcalls.
  pose proof (probes_made_le (bit self) idxs) as Hle.
  assert (Hidxs : length idxs = k) by apply hash_indices_length.
  assert (Hfind : length (hash_calls (tr (find BitHash key self))) = probes_made (bit self) idxs).
  { rewrite find_unfold. fold k. rewrite Hfcalls, length_map, length_take, seed_chain_length. lia. }
  repeat split.
  - rewrite insert_unfold. fold k. rewrite Hicalls, length_map. apply seed_chain_length.
  - exact Hfind.
  - rewrite Hfind. lia.
  - intros Htrue. rewrite Hfind, <- Hidxs. apply probes_made_all.
    rewrite find_unfold in Htrue. fold k in Htrue. congruence.
  - apply find_out; assumption.
Qed.

(** C8 (total safety).  On a built filter of positive size [insert]
    returns, [find] returns a boolean, and neither raises; the bits [insert]
    reads are the indices of the key's chain (seed 0, each raw hash reduced
    modulo the size and seeding the next call) and [find] reads a prefix of
    them; every position either of them touches lies in [0, size). *)
Theorem total_safety self key :
  reachable BitHash __bitsNeeded self ->
  0 < __size self ->
  out (insert BitHash key self) = Ok tt /\
  (exists b : bool, out (find BitHash key self) = Ok b) /\
  hash_calls (tr (insert BitHash key self)) =
    map (pair key) (seed_chain BitHash (Z.to_nat (__numHashes self)) key 0) /\
  reads (tr (insert BitHash key self)) =
    hash_indices BitHash (Z.to_nat (__numHashes self)) key 0 (__size self) /\
  (exists m : nat,
     reads (tr (find BitHash key self)) =
       take m (hash_indices BitHash (Z.to_nat (__numHashes self)) key 0 (__size self)) /\
     hash_calls (tr (find BitHash key self)) =
       map (pair key) (take m (seed_chain BitHash (Z.to_nat (__numHashes self)) key 0))) /\
  Forall (fun pos => 0 <= pos < __size self)
    (probed (tr (insert BitHash key self)) ++ probed (tr (find BitHash key self))).
Proof.
  intros Hr Hsize. pose proof (reachable_well_formed self Hr) as Hwf.
  pose proof Hwf as (_ & Hlen & _).
  set (k := Z.to_nat (__numHashes self)).
  destruct (insert_loop_run k key 0 self Hsize Hlen) as (_ & Hiout & Hicalls & Hireads & Hiprobed).
  destruct (find_loop_run k key 0 self Hsize Hlen) as (Hfout & Hfcalls & Hfreads & Hfprobed).
  rewrite insert_unfold, find_unfold. fold k.
  repeat split.
  - exact Hiout.
  - eexists. exact Hfout.
  - exact Hicalls.
  - exact Hireads.
  - eexists. split; [exact Hfreads | exact Hfcalls].
  - apply Forall_app. split; [exact Hiprobed|].
    rewrite Hfprobed, Hfreads. apply Forall_take, hash_indices_in_range, Hsize.
Qed.

(** C9, as the code has it (determinism of queries).  [find] leaves the
    object as it was, so a second [find] of the same key, with any calls
    other than [insert] in between, has the same outcome as the first; and
    on a built filter of positive size an answer [True] stays [True]
    whatever is called in between. *)
Theorem find_deterministic self key (cs : list call) :
  (forallb is_query cs = true ->
     out (find BitHash key (perform_all BitHash cs (st (find BitHash key self)))) =
     out (find BitHash key self)) /\
  (reachable BitHash __bitsNeeded self -> 0 < __size self ->
   out (find BitHash key self) = Ok true ->
     out (find BitHash key (perform_all BitHash cs self)) = Ok true).
Proof.
  split.
  - intros Hq. rewrite find_st, (perform_all_queries cs self Hq). reflexivity.
  - intros Hr Hsize Htrue. pose proof (reachable_well_formed self Hr) as Hwf.
    rewrite (find_out key self Hwf Hsize) in Htrue. injection Htrue as Hall.
    rewrite find_out.
    + f_equal. unfold find_all_bits in *.
      rewrite perform_all_size, perform_all_numHashes by exact Hwf.
      apply forallb_bit_kept; assumption.
    + apply perform_all_well_formed, Hwf.
    + rewrite perform_all_size by exact Hwf. exact Hsize.
Qed.

(** C10 (insert is idempotent).  On a built filter, [insert key] called
    twice in a row leaves the object the first call left; and whatever was
    called since [insert key], calling it again changes nothing. *)
Theorem insert_idempotent self key (cs : list call) :
  reachable BitHash __bitsNeeded self ->
  perform_all BitHash [Insert key; Insert key] self = perform_all BitHash [Insert key] self /\
  perform_all BitHash (Insert key :: cs ++ [Insert key]) self =
    perform_all BitHash (Insert key :: cs) self.
Proof.
  intros Hr. pose proof (reachable_well_formed self Hr) as Hwf.
  assert (Hgen : forall cs', perform_all BitHash (Insert key :: cs' ++ [Insert key]) self =
                             perform_all BitHash (Insert key :: cs') self).
  { intros cs'. unfold perform_all. cbn [fold_left]. rewrite fold_left_app. cbn [fold_left perform].
    set (s1 := st (insert BitHash key self)).
    assert (Hwf1 : well_formed s1) by apply (perform_well_formed self (Insert key) Hwf).
    assert (Hsz1 : __size s1 = __size self) by apply (perform_size self (Insert key) Hwf).
    change (fold_left (perform BitHash) cs' s1) with (perform_all BitHash cs' s1).
    pose proof (perform_all_well_formed cs' s1 Hwf1) as Hwf2.
    pose proof (perform_all_size cs' s1 Hwf1) as Hsz2.
    destruct (decide (__size self = 0)) as [Hz|Hnz].
    - apply insert_st_zero. lia.
    - destruct Hwf as (Hsz & Hlen & Hcount).
      assert (Hsize : 0 < __size self) by lia.
      apply insert_found; [exact Hwf2 | lia |].
      pose proof (insert_sets_chain key self (conj Hsz (conj Hlen Hcount)) Hsize) as Hset.
      fold s1 in Hset. unfold find_all_bits in *.
      rewrite perform_all_size, perform_all_numHashes by exact Hwf1.
      apply forallb_bit_kept; assumption. }
  split; [apply (Hgen []) | apply Hgen].
Qed.

(** ** Further properties of the code *)

(** *** Which bits a probe and an insert set *)

Lemma set1_bitVec self pos :
  __bitVec (set1 self pos) = <[Z.to_nat pos:=true]> (__bitVec self).
Proof.
  unfold set1, bit. destruct (__bitVec self !! Z.to_nat pos) as [[|]|] eqn:Hb; cbn;
    try reflexivity.
  symmetry. apply list_insert_id, Hb.
Qed.

Lemma set1_numKeys self pos : __numKeys (set1 self pos) = __numKeys self.
Proof. unfold set1. destruct (bit self pos); reflexivity. Qed.

Lemma set1_maxFalse self pos : __maxFalse (set1 self pos) = __maxFalse self.
Proof. unfold set1. destruct (bit self pos); reflexivity. Qed.

Lemma set1_bit self pos p :
  0 <= pos < Z.of_nat (length (__bitVec self)) -> 0 <= p ->
  bit (set1 self pos) p = bit self p || bool_decide (p = pos).
Proof.
  intros Hpos Hp. unfold bit. rewrite set1_bitVec.
  destruct (decide (p = pos)) as [->|Hne].
  - rewrite list_lookup_insert_eq by lia. rewrite bool_decide_eq_true_2 by reflexivity.
    cbn. rewrite orb_true_r. reflexivity.
  - rewrite list_lookup_insert_ne by lia. rewrite bool_decide_eq_false_2 by exact Hne.
    rewrite orb_false_r. reflexivity.
Qed.

Lemma fold_set1_bit (idxs : list Z) self p :
  Forall (fun q => 0 <= q < Z.of_nat (length (__bitVec self))) idxs -> 0 <= p ->
  bit (fold_left set1 idxs self) p = bit self p || bool_decide (p ∈ idxs).
Proof.
  revert self. induction idxs as [|q idxs IH]; intros self Hin Hp; cbn [fold_left].
  - rewrite bool_decide_eq_false_2 by apply not_elem_of_nil.
    rewrite orb_false_r. reflexivity.
  - inversion Hin as [|? ? Hq Hrest]; subst.
    rewrite IH; [|rewrite set1_length; exact Hrest | exact Hp].
    rewrite (set1_bit self q p Hq Hp), <- orb_assoc. f_equal.
    rewrite <- bool_decide_or. apply bool_decide_ext. rewrite elem_of_cons. reflexivity.
Qed.

Lemma fold_set1_numKeys (idxs : list Z) self :
  __numKeys (fold_left set1 idxs self) = __numKeys self.
Proof.
  revert self. induction idxs as [|p idxs IH]; intros self; cbn; [reflexivity|].
  rewrite IH. apply set1_numKeys.
Qed.

Lemma fold_set1_maxFalse (idxs : list Z) self :
  __maxFalse (fold_left set1 idxs self) = __maxFalse self.
Proof.
  revert self. induction idxs as [|p idxs IH]; intros self; cbn; [reflexivity|].
  rewrite IH. apply set1_maxFalse.
Qed.

Lemma fold_set1_numBitsSet_le (idxs : list Z) self :
  __numBitsSet (fold_left set1 idxs self) <= __numBitsSet self + Z.of_nat (length idxs).
Proof.
  revert self. induction idxs as [|q idxs IH]; intros self; cbn [fold_left length]; [lia|].
  specialize (IH (set1 self q)). rewrite set1_numBitsSet in IH.
  destruct (bit self q); lia.
Qed.

Lemma fold_set1_numBitsSet_lt (idxs : list Z) self :
  forallb (bit self) idxs = false ->
  __numBitsSet self < __numBitsSet (fold_left set1 idxs self).
Proof.
  revert self. induction idxs as [|q idxs IH]; intros self; cbn [fold_left forallb];
    [discriminate|].
  destruct (bit self q) eqn:Hq; cbn [andb].
  - intros Hrest. rewrite (set1_fixed self q Hq). apply IH, Hrest.
  - intros _. pose proof (fold_set1_numBitsSet idxs (set1 self q)) as Hmono.
    rewrite set1_numBitsSet, Hq in Hmono. lia.
Qed.

Lemma insert_bit key self p :
  well_formed self -> 0 < __size self -> 0 <= p ->
  bit (st (insert BitHash key self)) p =
    bit self p || covered BitHash (Z.to_nat (__numHashes self)) (__size self) [key] p.
Proof.
  intros (Hsz & Hlen & _) Hsize Hp.
  rewrite (insert_st key self Hsize Hlen). cbn [covered existsb]. rewrite orb_false_r.
  apply fold_set1_bit; [|exact Hp].
  eapply Forall_impl; [apply hash_indices_in_range, Hsize|]. cbn. intros q Hq. lia.
Qed.

Lemma covered_app (k : nat) (m : Z) (keys1 keys2 : list Key) p :
  covered BitHash k m (keys1 ++ keys2) p =
    covered BitHash k m keys1 p || covered BitHash k m keys2 p.
Proof. unfold covered. apply existsb_app. Qed.

Lemma perform_all_bit (cs : list call) self p :
  well_formed self -> 0 < __size self -> 0 <= p ->
  bit (perform_all BitHash cs self) p =
    bit self p ||
    covered BitHash (Z.to_nat (__numHashes self)) (__size self) (inserted_keys cs) p.
Proof.
  revert self. induction cs as [|c cs IH]; intros self Hwf Hsize Hp.
  - cbn. rewrite orb_false_r. reflexivity.
  - cbn [perform_all fold_left].
    change (fold_left (perform BitHash) cs (perform BitHash self c))
      with (perform_all BitHash cs (perform BitHash self c)).
    rewrite IH; [|apply perform_well_formed, Hwf | rewrite perform_size; assumption | exact Hp].
    rewrite perform_size, perform_numHashes by exact Hwf.
    destruct c as [key|key| |].
    + cbn [perform]. rewrite (insert_bit key self p Hwf Hsize Hp), <- orb_assoc.
      f_equal. symmetry. apply (covered_app _ _ [key]).
    + rewrite (perform_query self (Find key)) by reflexivity. reflexivity.
    + rewrite (perform_query self FalsePositiveRate) by reflexivity. reflexivity.
    + rewrite (perform_query self NumBitsSet) by reflexivity. reflexivity.
Qed.

(** *** What calls leave alone *)

Lemma perform_numKeys self (c : call) :
  well_formed self -> __numKeys (perform BitHash self c) = __numKeys self.
Proof.
  intros Hwf. destruct (perform_cases self c Hwf) as [->|(_ & idxs & Hin & ->)];
    [reflexivity | apply fold_set1_numKeys].
Qed.

Lemma perform_maxFalse self (c : call) :
  well_formed self -> __maxFalse (perform BitHash self c) = __maxFalse self.
Proof.
  intros Hwf. destruct (perform_cases self c Hwf) as [->|(_ & idxs & Hin & ->)];
    [reflexivity | apply fold_set1_maxFalse].
Qed.

Lemma perform_all_numKeys (cs : list call) self :
  well_formed self -> __numKeys (perform_all BitHash cs self) = __numKeys self.
Proof.
  revert self. induction cs as [|c cs IH]; intros self Hwf; cbn; [reflexivity|].
  unfold perform_all in IH. rewrite IH by (apply perform_well_formed, Hwf).
  apply perform_numKeys, Hwf.
Qed.

Lemma perform_all_maxFalse (cs : list call) self :
  well_formed self -> __maxFalse (perform_all BitHash cs self) = __maxFalse self.
Proof.
  revert self. induction cs as [|c cs IH]; intros self Hwf; cbn; [reflexivity|].
  unfold perform_all in IH. rewrite IH by (apply perform_well_formed, Hwf).
  apply perform_maxFalse, Hwf.
Qed.

Lemma perform_all_zero (cs : list call) self :
  __size self = 0 -> perform_all BitHash cs self = self.
Proof.
  intros Hz. induction cs as [|c cs IH]; cbn; [reflexivity|].
  assert (Hc : perform BitHash self c = self).
  { destruct c as [key|key| |]; cbn [perform].
    - apply insert_st_zero, Hz.
    - apply find_st.
    - apply falsePositiveRate_st.
    - apply numBitsSet_st. }
  rewrite Hc. exact IH.
Qed.

Lemma BloomFilter_eq (s1 s2 : BloomFilter) :
  __size s1 = __size s2 -> __numKeys s1 = __numKeys s2 ->
  __numHashes s1 = __numHashes s2 -> __maxFalse s1 = __maxFalse s2 ->
  __bitVec s1 = __bitVec s2 -> __numBitsSet s1 = __numBitsSet s2 -> s1 = s2.
Proof. destruct s1, s2; cbn; intros; subst; reflexivity. Qed.

Lemma lookup_bit self (i : nat) :
  (i < length (__bitVec self))%nat -> __bitVec self !! i = Some (bit self (Z.of_nat i)).
Proof.
  intros Hi. unfold bit. rewrite Nat2Z.id.
  destruct (lookup_lt_is_Some_2 (__bitVec self) i Hi) as [b ->]. reflexivity.
Qed.

Lemma covered_same_keys (k : nat) (m : Z) (keys1 keys2 : list Key) p :
  (forall key, key ∈ keys1 <-> key ∈ keys2) ->
  covered BitHash k m keys1 p = covered BitHash k m keys2 p.
Proof.
  intros Hset. unfold covered. apply Bool.eq_iff_eq_true. rewrite !existsb_exists.
  split; intros (key & Hin & Hc); exists key; (split; [|exact Hc]);
    apply list_elem_of_In; apply Hset; apply list_elem_of_In; exact Hin.
Qed.

Lemma forallb_agree (f g : Z -> bool) (l : list Z) :
  (forall p, p ∈ l -> f p = g p) -> forallb f l = forallb g l.
Proof.
  induction l as [|q l IH]; intros Hfg; cbn; [reflexivity|].
  rewrite (Hfg q) by (apply elem_of_cons; left; reflexivity).
  rewrite IH; [reflexivity|]. intros p Hp. apply Hfg, elem_of_cons. right. exact Hp.
Qed.

Lemma inserted_keys_cons (c : @call Key) (cs : list call) :
  inserted_keys (c :: cs) = inserted_keys [c] ++ inserted_keys cs.
Proof. destruct c; reflexivity. Qed.

Lemma perform_numBitsSet_le self (c : call) :
  well_formed self ->
  __numBitsSet (perform BitHash self c) <=
    __numBitsSet self + Z.of_nat (length (inserted_keys [c])) * Z.max 0 (__numHashes self).
Proof.
  intros Hwf. destruct (is_query c) eqn:Hq.
  - rewrite (perform_query self c Hq). destruct c; cbn; lia.
  - destruct c as [key|key| |]; try discriminate. cbn [perform].
    change (inserted_keys [Insert key]) with [key].
    change (Z.of_nat (length [key])) with 1. rewrite Z.mul_1_l.
    destruct Hwf as (Hsz & Hlen & _).
    destruct (decide (__size self = 0)) as [Hz|Hnz].
    + rewrite (insert_st_zero key self Hz). lia.
    + rewrite (insert_st key self) by (try exact Hlen; lia).
      pose proof (fold_set1_numBitsSet_le
        (hash_indices BitHash (Z.to_nat (__numHashes self)) key 0 (__size self)) self) as Hle.
      rewrite hash_indices_length in Hle. lia.
Qed.

(** ** Properties beyond the claims *)

(** X1.  On a built filter of positive size, [insert key] sets the bits at
    the positions of the key's chain and no other: a bit is set afterwards
    exactly when it was set before or is one of those positions; the number
    of bits does not change. *)
Theorem insert_sets_exactly_the_chain self key pos :
  reachable BitHash __bitsNeeded self ->
  0 < __size self ->
  0 <= pos ->
  bit (st (insert BitHash key self)) pos =
    bit self pos ||
    bool_decide (pos ∈ hash_indices BitHash (Z.to_nat (__numHashes self)) key 0 (__size self)) /\
  length (__bitVec (st (insert BitHash key self))) = length (__bitVec self).
Proof.
  intros Hr Hsize Hpos. pose proof (reachable_well_formed self Hr) as Hwf. split.
  - rewrite (insert_bit key self pos Hwf Hsize Hpos). cbn [covered existsb].
    rewrite orb_false_r. reflexivity.
  - pose proof (perform_well_formed self (Insert key) Hwf) as (_ & Hlen' & _).
    pose proof (perform_size self (Insert key) Hwf) as Hsz'.
    destruct Hwf as (_ & Hlen & _). cbn [perform] in Hlen', Hsz'. lia.
Qed.

(** X2.  The answer of [find] on a filter built by [__init__] with a
    positive size and then used by any calls: [True] exactly when each of
    the key's chain positions is a chain position of some inserted key. *)
Theorem find_answer (numKeys numHashes : Z) (maxFalsePositive : float) self
    (cs : list call) key :
  __init__ __bitsNeeded numKeys numHashes maxFalsePositive = Ok self ->
  0 < __size self ->
  out (find BitHash key (perform_all BitHash cs self)) =
    Ok (forallb (covered BitHash (Z.to_nat numHashes) (__size self) (inserted_keys cs))
          (hash_indices BitHash (Z.to_nat numHashes) key 0 (__size self))).
Proof.
  intros Hinit Hsize.
  destruct (init_well_formed _ _ _ _ Hinit) as (Hwf & _ & Hk & _ & Hbits).
  rewrite find_out;
    [|apply perform_all_well_formed, Hwf | rewrite perform_all_size by exact Hwf; exact Hsize].
  f_equal. unfold find_all_bits.
  rewrite perform_all_size, perform_all_numHashes, Hk by exact Hwf.
  apply forallb_agree. intros p Hp.
  assert (Hp0 : 0 <= p).
  { pose proof (hash_indices_in_range (Z.to_nat numHashes) key 0 (__size self) Hsize) as Hall.
    rewrite Forall_forall in Hall. apply Hall in Hp. lia. }
  rewrite (perform_all_bit cs self p Hwf Hsize Hp0), Hk.
  assert (Hfresh : bit self p = false).
  { unfold bit. rewrite Hbits. destruct (replicate _ _ !! _) as [b|] eqn:Hb; [|reflexivity].
    apply lookup_replicate in Hb as [-> _]. reflexivity. }
  rewrite Hfresh. reflexivity.
Qed.

(** X3.  A built filter depends on the set of keys inserted, not on their
    order, their repetitions or the queries in between: two lists of calls
    that insert the same keys leave the same object. *)
Theorem same_keys_same_filter self (cs1 cs2 : list call) :
  reachable BitHash __bitsNeeded self ->
  (forall key, key ∈ inserted_keys cs1 <-> key ∈ inserted_keys cs2) ->
  perform_all BitHash cs1 self = perform_all BitHash cs2 self.
Proof.
  intros Hr Hset. pose proof (reachable_well_formed self Hr) as Hwf.
  destruct (decide (__size self = 0)) as [Hz|Hnz].
  { rewrite !perform_all_zero by exact Hz. reflexivity. }
  assert (Hsize : 0 < __size self) by (destruct Hwf; lia).
  pose proof (perform_all_well_formed cs1 self Hwf) as (_ & Hlen1 & Hcount1).
  pose proof (perform_all_well_formed cs2 self Hwf) as (_ & Hlen2 & Hcount2).
  rewrite perform_all_size in Hlen1, Hlen2 by exact Hwf.
  assert (Hbits : __bitVec (perform_all BitHash cs1 self) =
                  __bitVec (perform_all BitHash cs2 self)).
  { apply list_eq. intros i.
    destruct (decide (i < Z.to_nat (__size self))%nat) as [Hi|Hi].
    - rewrite !lookup_bit by lia. f_equal.
      rewrite !perform_all_bit by (try exact Hwf; lia). f_equal.
      apply covered_same_keys, Hset.
    - rewrite !lookup_ge_None_2 by lia. reflexivity. }
  apply BloomFilter_eq.
  - rewrite !perform_all_size by exact Hwf. reflexivity.
  - rewrite !perform_all_numKeys by exact Hwf. reflexivity.
  - rewrite !perform_all_numHashes by exact Hwf. reflexivity.
  - rewrite !perform_all_maxFalse by exact Hwf. reflexivity.
  - exact Hbits.
  - rewrite Hcount1, Hcount2, Hbits. reflexivity.
Qed.

(** X4.  On a built filter of positive size, [insert key] changes the
    object exactly when [find key] answered [False]: after [True] the
    object is the same, after [False] the count of set bits is larger. *)
Theorem insert_changes_iff_not_found self key :
  reachable BitHash __bitsNeeded self ->
  0 < __size self ->
  (out (find BitHash key self) = Ok true -> st (insert BitHash key self) = self) /\
  (out (find BitHash key self) = Ok false ->
     __numBitsSet self < __numBitsSet (st (insert BitHash key self))).
Proof.
  intros Hr Hsize. pose proof (reachable_well_formed self Hr) as Hwf.
  rewrite (find_out key self Hwf Hsize). split; intros [= Hall].
  - apply insert_found; assumption.
  - destruct Hwf as (_ & Hlen & _). rewrite (insert_st key self Hsize Hlen).
    apply fold_set1_numBitsSet_lt, Hall.
Qed.

(** X5.  Each [insert] adds at most [numHashes] to the count of set bits:
    after any calls on a built filter the count has grown by at most the
    number of inserts times the number of hashes. *)
Theorem fill_bound self (cs : list call) :
  reachable BitHash __bitsNeeded self ->
  __numBitsSet (perform_all BitHash cs self) <=
    __numBitsSet self + Z.of_nat (length (inserted_keys cs)) * Z.max 0 (__numHashes self).
Proof.
  intros Hr. pose proof (reachable_well_formed self Hr) as Hwf. clear Hr.
  revert self Hwf. induction cs as [|c cs IH]; intros self Hwf; [cbn; lia|].
  cbn [perform_all fold_left].
  change (fold_left (perform BitHash) cs (perform BitHash self c))
    with (perform_all BitHash cs (perform BitHash self c)).
  specialize (IH _ (perform_well_formed self c Hwf)).
  rewrite (perform_numHashes self c Hwf) in IH.
  pose proof (perform_numBitsSet_le self c Hwf) as Hc.
  rewrite (inserted_keys_cons c cs), length_app, Nat2Z.inj_add. lia.
Qed.

(** *** A fresh filter, a filter without bits, a filter without hashes *)

Lemma find_loop_zero (n : nat) key seed self :
  __size self = 0 ->
  find_loop BitHash (S n) key seed self =
    mkRun [EvHash key seed] self (Raise ZeroDivisionError).
Proof.
  intros Hsize. cbn [find_loop].
  unfold call_BitHash, py_mod, emit, attr, raise, mbind, M_bind, mret, M_ret.
  cbn. rewrite Hsize. reflexivity.
Qed.

Lemma fresh_bit (numKeys numHashes : Z) (maxFalsePositive : float) self pos :
  __init__ __bitsNeeded numKeys numHashes maxFalsePositive = Ok self -> bit self pos = false.
Proof.
  intros Hinit. destruct (init_well_formed _ _ _ _ Hinit) as (_ & _ & _ & _ & Hbits).
  unfold bit. rewrite Hbits. destruct (replicate _ _ !! _) as [b|] eqn:Hb; [|reflexivity].
  apply lookup_replicate in Hb as [-> _]. reflexivity.
Qed.

(** X6.  A filter just built, of positive size and with at least one hash,
    holds nothing: [numBitsSet()] is 0 and [find] answers [False] for every
    key, after a single call of the oracle. *)
Theorem fresh_filter_finds_nothing (numKeys numHashes : Z) (maxFalsePositive : float)
    self key :
  __init__ __bitsNeeded numKeys numHashes maxFalsePositive = Ok self ->
  0 < __size self ->
  0 < numHashes ->
  out (find BitHash key self) = Ok false /\
  hash_calls (tr (find BitHash key self)) = [(key, 0)] /\
  out (@numBitsSet Key H self) = Ok 0.
Proof.
  intros Hinit Hsize Hk.
  destruct (init_well_formed _ _ _ _ Hinit) as ((_ & Hlen & _) & _ & Hnum & Hzero & _).
  rewrite find_unfold, Hnum.
  destruct (Z.to_nat numHashes) as [|n] eqn:Hn; [lia|].
  rewrite (find_loop_step n key 0 self Hsize Hlen). cbv zeta.
  rewrite (fresh_bit _ _ _ self _ Hinit). cbn.
  repeat split. rewrite Hzero. reflexivity.
Qed.

(** X7.  On an object without bits ([__size] is 0) that has at least one
    hash, [insert] and [find] raise [ZeroDivisionError] after one call of
    the oracle and [falsePositiveRate] raises it too; the object is left as
    it was. *)
Theorem no_bits_raises self key :
  __size self = 0 ->
  0 < __numHashes self ->
  insert BitHash key self = mkRun [EvHash key 0] self (Raise ZeroDivisionError) /\
  find BitHash key self = mkRun [EvHash key 0] self (Raise ZeroDivisionError) /\
  @falsePositiveRate Key H self = mkRun [] self (Raise ZeroDivisionError).
Proof.
  intros Hsize Hk. rewrite insert_unfold, find_unfold.
  destruct (Z.to_nat (__numHashes self)) as [|n] eqn:Hn; [lia|].
  repeat split.
  - cbn [insert_loop]. apply (bind_raise _ _ _ _ _ _ (insert_probe_zero key 0 self Hsize)).
  - apply find_loop_zero, Hsize.
  - unfold falsePositiveRate, numBitsSet, attr, lift, raise, mbind, M_bind, mret, M_ret.
    cbn. rewrite Hsize. reflexivity.
Qed.

(** X8.  On an object whose number of hashes is zero or negative, [insert]
    does nothing and [find] answers [True] for every key; neither calls the
    oracle nor looks at a bit. *)
Theorem no_hashes_finds_everything self key :
  __numHashes self <= 0 ->
  insert BitHash key self = mkRun [] self (Ok tt) /\
  find BitHash key self = mkRun [] self (Ok true).
Proof.
  intros Hk. rewrite insert_unfold, find_unfold.
  replace (Z.to_nat (__numHashes self)) with O by lia. split; reflexivity.
Qed.

(** *** The driver *)

Variable empty_line : Key.

Lemma run_bind_ok {A B : Type} (m : @M Key H A) (f : A -> @M Key H B) self a :
  out (m self) = Ok a ->
  (x ← m; f x) self =
    mkRun (tr (m self) ++ tr (f a (st (m self)))) (st (f a (st (m self))))
          (out (f a (st (m self)))).
Proof. intros Hm. unfold mbind, M_bind. cbv zeta. rewrite Hm. reflexivity. Qed.

Lemma run_bind_raise {A B : Type} (m : @M Key H A) (f : A -> @M Key H B) self e :
  out (m self) = Raise e ->
  (x ← m; f x) self = mkRun (tr (m self)) (st (m self)) (Raise e).
Proof. intros Hm. unfold mbind, M_bind. cbv zeta. rewrite Hm. reflexivity. Qed.

Lemma inserted_keys_Insert (ws : list Key) : inserted_keys (map Insert ws) = ws.
Proof. induction ws as [|w ws IH]; cbn; [reflexivity | f_equal; exact IH]. Qed.

Lemma insert_out key self :
  well_formed self -> 0 < __size self -> out (insert BitHash key self) = Ok tt.
Proof.
  intros (_ & Hlen & _) Hsize. rewrite insert_unfold.
  apply (insert_loop_run _ key 0 self Hsize Hlen).
Qed.

(** The words [insert_words] has inserted when it stops, and all of the
    [n] words read when it returns. *)
Lemma insert_words_spec (n : nat) (text : list Key) self :
  well_formed self ->
  (exists ws, st (insert_words BitHash empty_line n text self) =
              perform_all BitHash (map Insert ws) self) /\
  (forall rest, out (insert_words BitHash empty_line n text self) = Ok rest ->
     st (insert_words BitHash empty_line n text self) =
       perform_all BitHash (map Insert (read_words empty_line n text)) self).
Proof.
  revert text self. induction n as [|n IH]; intros text self Hwf.
  - split; [exists []; reflexivity | intros; reflexivity].
  - cbn [insert_words read_words].
    destruct (readline empty_line text) as [word text'] eqn:Hread. cbn [fst snd].
    destruct (out (insert BitHash word self)) as [[]|e] eqn:Hout.
    + rewrite (run_bind_ok _ _ _ _ Hout). cbn [st out].
      destruct (IH text' (st (insert BitHash word self))) as [[ws Hws] Hall].
      { apply (perform_well_formed self (Insert word) Hwf). }
      split.
      * exists (word :: ws). rewrite Hws. reflexivity.
      * intros rest Hrest. rewrite (Hall rest Hrest). reflexivity.
    + rewrite (run_bind_raise _ _ _ _ Hout). cbn [st out]. split.
      * exists [word]. reflexivity.
      * intros rest [=].
Qed.

Lemma insert_words_total (n : nat) (text : list Key) self :
  well_formed self -> 0 < __size self ->
  exists rest, out (insert_words BitHash empty_line n text self) = Ok rest.
Proof.
  revert text self. induction n as [|n IH]; intros text self Hwf Hsize.
  - eexists. reflexivity.
  - cbn [insert_words]. destruct (readline empty_line text) as [word text'].
    rewrite (run_bind_ok _ _ _ _ (insert_out word self Hwf Hsize)). cbn [out].
    apply IH; [apply (perform_well_formed self (Insert word) Hwf)|].
    pose proof (perform_size self (Insert word) Hwf) as Hsz. cbn [perform] in Hsz. lia.
Qed.

(** A key that was inserted is never answered [False]. *)
Lemma find_inserted (ws : list Key) self w :
  well_formed self -> w ∈ ws ->
  out (find BitHash w (perform_all BitHash (map Insert ws) self)) = Ok true \/
  exists e, out (find BitHash w (perform_all BitHash (map Insert ws) self)) = Raise e.
Proof.
  intros Hwf Hw. destruct (decide (__size self = 0)) as [Hz|Hnz].
  - rewrite (perform_all_zero _ self Hz), find_unfold.
    destruct (Z.to_nat (__numHashes self)) as [|n]; [left; reflexivity|].
    right. rewrite (find_loop_zero n w 0 self Hz). eexists. reflexivity.
  - left. assert (Hsize : 0 < __size self) by (destruct Hwf; lia).
    rewrite find_out;
      [|apply perform_all_well_formed, Hwf | rewrite perform_all_size by exact Hwf; exact Hsize].
    f_equal. unfold find_all_bits.
    rewrite perform_all_size, perform_all_numHashes by exact Hwf.
    apply forallb_forall. intros p Hp.
    assert (Hp0 : 0 <= p).
    { pose proof (hash_indices_in_range (Z.to_nat (__numHashes self)) w 0 (__size self) Hsize)
        as Hall.
      rewrite Forall_forall in Hall. apply list_elem_of_In, Hall in Hp. lia. }
    rewrite (perform_all_bit _ self p Hwf Hsize Hp0), inserted_keys_Insert.
    apply orb_true_intro. right. unfold covered. apply existsb_exists.
    exists w. split; [apply list_elem_of_In, Hw|].
    apply bool_decide_eq_true_2, list_elem_of_In, Hp.
Qed.

Lemma count_missing_spec (n : nat) (text : list Key) (acc : Z) self :
  (forall w, w ∈ read_words empty_line n text ->
     out (find BitHash w self) = Ok true \/ exists e, out (find BitHash w self) = Raise e) ->
  forall missing rest,
    out (count_missing BitHash empty_line n text acc self) = Ok (missing, rest) ->
    missing = acc.
Proof.
  revert text acc. induction n as [|n IH]; intros text acc Hfound missing rest.
  - cbn. intros [= <- _]. reflexivity.
  - cbn [count_missing read_words] in *.
    destruct (readline empty_line text) as [word text'] eqn:Hread. cbn [fst snd] in Hfound.
    destruct (Hfound word) as [Htrue|[e Hraise]]; [apply elem_of_cons; left; reflexivity | |].
    + rewrite (run_bind_ok _ _ _ _ Htrue). cbn [out negb]. rewrite find_st.
      apply IH. intros w Hw. apply Hfound, elem_of_cons. right. exact Hw.
    + rewrite (run_bind_raise _ _ _ _ Hraise). cbn [out]. intros [=].
Qed.

Lemma count_missing_total (n : nat) (text : list Key) (acc : Z) self :
  well_formed self -> 0 < __size self ->
  st (count_missing BitHash empty_line n text acc self) = self /\
  exists missing rest,
    out (count_missing BitHash empty_line n text acc self) = Ok (missing, rest).
Proof.
  intros Hwf Hsize. revert text acc. induction n as [|n IH]; intros text acc.
  - split; [reflexivity | eexists _, _; reflexivity].
  - cbn [count_missing]. destruct (readline empty_line text) as [word text'].
    rewrite (run_bind_ok _ _ _ _ (find_out word self Hwf Hsize)). cbn [st out].
    rewrite find_st. apply IH.
Qed.

Lemma count_found_bounds (n : nat) (text : list Key) (acc : Z) self :
  forall foundWords rest,
    out (count_found BitHash empty_line n text acc self) = Ok (foundWords, rest) ->
    acc <= foundWords <= acc + Z.of_nat n.
Proof.
  revert text acc self. induction n as [|n IH]; intros text acc self foundWords rest.
  - cbn. intros [= <- _]. lia.
  - cbn [count_found]. destruct (readline empty_line text) as [word text'].
    destruct (out (find BitHash word self)) as [found|e] eqn:Hout.
    + rewrite (run_bind_ok _ _ _ _ Hout). cbn [out]. intros Hrest.
      apply IH in Hrest. destruct found; lia.
    + rewrite (run_bind_raise _ _ _ _ Hout). cbn [out]. intros [=].
Qed.

Lemma count_found_total (n : nat) (text : list Key) (acc : Z) self :
  well_formed self -> 0 < __size self ->
  exists foundWords rest,
    out (count_found BitHash empty_line n text acc self) = Ok (foundWords, rest).
Proof.
  intros Hwf Hsize. revert text acc. induction n as [|n IH]; intros text acc.
  - eexists _, _; reflexivity.
  - cbn [count_found]. destruct (readline empty_line text) as [word text'].
    rewrite (run_bind_ok _ _ _ _ (find_out word self Hwf Hsize)). cbn [out].
    rewrite find_st. apply IH.
Qed.

Ltac printed_cases Hin :=
  repeat (apply elem_of_cons in Hin as [Hin|Hin];
          [try discriminate Hin; try (injection Hin as ->)|]);
  try (apply elem_of_nil in Hin; destruct Hin).

Lemma main_with_printed (numKeys numHashes : Z) (maxFalse : float) (wordlist : list Key) :
  (forall missing,
     Print_missing missing ∈
       fst (main_with BitHash __bitsNeeded empty_line numKeys numHashes maxFalse wordlist) ->
     missing = 0) /\
  (forall foundWords,
     Print_found foundWords ∈
       fst (main_with BitHash __bitsNeeded empty_line numKeys numHashes maxFalse wordlist) ->
     0 <= foundWords <= Z.max 0 numKeys).
Proof.
  unfold main_with.
  destruct (__init__ __bitsNeeded numKeys numHashes maxFalse) as [b|e] eqn:Hinit;
    [|split; intros x Hin; cbn in Hin; printed_cases Hin].
  destruct (init_well_formed _ _ _ _ Hinit) as (Hwf & _).
  cbv zeta.
  destruct (out (insert_words BitHash empty_line (Z.to_nat numKeys) wordlist b))
    as [rest1|e] eqn:H1; [|split; intros x Hin; cbn in Hin; printed_cases Hin].
  rewrite falsePositiveRate_st.
  destruct (out (falsePositiveRate _)) as [rate|e] eqn:H2;
    [|split; intros x Hin; cbn in Hin; printed_cases Hin].
  destruct (out (count_missing BitHash empty_line (Z.to_nat numKeys) wordlist 0 _))
    as [[missing text]|e] eqn:H3; [|split; intros x Hin; cbn in Hin; printed_cases Hin].
  assert (Hmissing : missing = 0).
  { apply (count_missing_spec _ _ _ _) in H3; [exact H3|].
    destruct (insert_words_spec (Z.to_nat numKeys) wordlist b Hwf) as [_ Hall].
    rewrite (Hall rest1 H1). intros w Hw. apply find_inserted; assumption. }
  subst missing.
  destruct (out (count_found BitHash empty_line (Z.to_nat numKeys) text 0 _))
    as [[foundWords rest]|e] eqn:H4;
    [|split; intros x Hin; cbn in Hin; printed_cases Hin; reflexivity].
  apply count_found_bounds in H4.
  destruct (if decide (numKeys = 0) then _ else _) as [percentage|e];
    split; intros x Hin; cbn in Hin; printed_cases Hin; try reflexivity; lia.
Qed.

Lemma falsePositiveRate_out self (prop rate : float) :
  __size self <> 0 ->
  int_truediv (__size self - __numBitsSet self) (__size self) = Ok prop ->
  float_pow_int (int_sub_float 1 prop) (__numHashes self) = Ok rate ->
  out (@falsePositiveRate Key H self) = Ok rate.
Proof.
  intros Hsize Hdiv Hpow.
  unfold falsePositiveRate, numBitsSet, attr, lift, raise, mbind, M_bind, mret, M_ret.
  cbn. destruct (decide (__size self = 0)) as [?|_]; [contradiction|].
  cbn. rewrite Hdiv. cbn. exact Hpow.
Qed.

Lemma main_with_completes (numKeys numHashes bitCount : Z) (maxFalse : float)
    (wordlist : list Key) :
  __bitsNeeded numKeys numHashes maxFalse = Ok bitCount ->
  0 < bitCount ->
  0 < numKeys ->
  (forall a, 0 <= a <= bitCount -> exists prop, int_truediv a bitCount = Ok prop) ->
  (forall a prop, 0 <= a <= bitCount -> int_truediv a bitCount = Ok prop ->
     exists rate, float_pow_int (int_sub_float 1 prop) numHashes = Ok rate) ->
  (forall a, 0 <= a <= numKeys -> exists percentage, int_truediv a numKeys = Ok percentage) ->
  exists rate foundWords percentage,
    main_with BitHash __bitsNeeded empty_line numKeys numHashes maxFalse wordlist =
      ([Print_rate rate; Print_missing 0; Print_found foundWords;
        Print_percentage percentage], Ok tt) /\
    0 <= foundWords <= numKeys.
Proof.
  intros Hbits Hpos Hkeys Hdiv Hpow Hdiv2.
  assert (Hinit : exists b, __init__ __bitsNeeded numKeys numHashes maxFalse = Ok b).
  { unfold __init__, BitVector. rewrite Hbits.
    destruct (decide (0 <= bitCount)); [eexists; reflexivity | lia]. }
  destruct Hinit as [b Hinit].
  destruct (init_well_formed _ _ _ _ Hinit) as (Hwf & Hsz & Hk & _).
  rewrite Hbits in Hsz. injection Hsz as Hsz.
  destruct (insert_words_total (Z.to_nat numKeys) wordlist b Hwf) as [rest1 H1]; [lia|].
  destruct (insert_words_spec (Z.to_nat numKeys) wordlist b Hwf) as [_ Hall].
  specialize (Hall rest1 H1).
  set (s1 := st (insert_words BitHash empty_line (Z.to_nat numKeys) wordlist b)) in *.
  assert (Hwf1 : well_formed s1) by (rewrite Hall; apply perform_all_well_formed, Hwf).
  assert (Hsz1 : __size s1 = bitCount) by (rewrite Hall, perform_all_size by exact Hwf; lia).
  assert (Hk1 : __numHashes s1 = numHashes)
    by (rewrite Hall, perform_all_numHashes by exact Hwf; exact Hk).
  assert (Hrate : exists rate, out (@falsePositiveRate Key H s1) = Ok rate).
  { pose proof (count_ones_bounds (__bitVec s1)) as Hb.
    destruct Hwf1 as (_ & Hlen1 & Hcount1).
    assert (Hzero : 0 <= __size s1 - __numBitsSet s1 <= bitCount) by lia.
    destruct (Hdiv _ Hzero) as [prop Hprop].
    destruct (Hpow _ _ Hzero Hprop) as [rate Hr].
    exists rate. apply (falsePositiveRate_out s1 prop rate); [lia | | ].
    - rewrite Hsz1 in *. exact Hprop.
    - rewrite Hk1. exact Hr. }
  destruct Hrate as [rate H2].
  destruct (count_missing_total (Z.to_nat numKeys) wordlist 0 s1 Hwf1)
    as (Hst3 & missing & text & H3); [lia|].
  assert (Hmissing : missing = 0).
  { apply (count_missing_spec _ _ _ _) in H3; [exact H3|].
    intros w Hw. rewrite Hall. apply find_inserted; assumption. }
  subst missing.
  destruct (count_found_total (Z.to_nat numKeys) text 0 s1 Hwf1)
    as (foundWords & rest & H4); [lia|].
  pose proof (count_found_bounds _ _ _ _ _ _ H4) as Hbound.
  assert (Hfw : 0 <= foundWords <= numKeys) by lia.
  destruct (Hdiv2 _ Hfw) as [percentage H5].
  exists rate, foundWords, percentage. split; [|exact Hfw].
  unfold main_with. rewrite Hinit. cbv zeta. fold s1. rewrite H1.
  rewrite (falsePositiveRate_st s1), H2, H3, Hst3, H4.
  destruct (decide (numKeys = 0)) as [?|_]; [lia|]. rewrite H5. reflexivity.
Qed.

(** X9.  Whatever [__main] prints, for every word list: the number of
    missing words it reports is 0, and the number of words found among the
    next ones is between 0 and 100000. *)
Theorem main_reports_no_missing_word (maxFalse : float) (wordlist : list Key) :
  (forall missing,
     Print_missing missing ∈ fst (__main BitHash __bitsNeeded empty_line maxFalse wordlist) ->
     missing = 0) /\
  (forall foundWords,
     Print_found foundWords ∈ fst (__main BitHash __bitsNeeded empty_line maxFalse wordlist) ->
     0 <= foundWords <= 100000).
Proof.
  unfold __main.
  destruct (main_with_printed 100000 4 maxFalse wordlist) as [Hmissing Hfound].
  split; [exact Hmissing|]. intros foundWords Hin. apply Hfound in Hin. lia.
Qed.

(** X10.  When the sizing gives a positive number of bits and the three
    float operations return on the values the run gives them, [__main] runs
    to its end for every word list and prints four lines, the second being
    [Missing 0]. *)
Theorem main_completes (bitCount : Z) (maxFalse : float) (wordlist : list Key) :
  __bitsNeeded 100000 4 maxFalse = Ok bitCount ->
  0 < bitCount ->
  (forall a, 0 <= a <= bitCount -> exists prop, int_truediv a bitCount = Ok prop) ->
  (forall a prop, 0 <= a <= bitCount -> int_truediv a bitCount = Ok prop ->
     exists rate, float_pow_int (int_sub_float 1 prop) 4 = Ok rate) ->
  (forall a, 0 <= a <= 100000 -> exists percentage, int_truediv a 100000 = Ok percentage) ->
  exists rate foundWords percentage,
    __main BitHash __bitsNeeded empty_line maxFalse wordlist =
      ([Print_rate rate; Print_missing 0; Print_found foundWords;
        Print_percentage percentage], Ok tt) /\
    0 <= foundWords <= 100000.
Proof.
  intros Hbits Hpos Hdiv Hpow Hdiv2. unfold __main.
  apply (main_with_completes 100000 4 bitCount); try assumption. lia.
Qed.

(** *** Reads and writes *)

Lemma writes_app (t1 t2 : list (@event Key)) : writes (t1 ++ t2) = writes t1 ++ writes t2.
Proof. apply omap_app. Qed.

Lemma bind_no_write {A B : Type} (m : @M Key H A) (f : A -> @M Key H B) self :
  writes (tr (m self)) = [] ->
  (forall a s, writes (tr (f a s)) = []) ->
  writes (tr ((x ← m; f x) self)) = [].
Proof.
  intros Hm Hf. unfold mbind, M_bind. cbv zeta.
  destruct (out (m self)) as [a|e]; cbn [tr]; [|exact Hm].
  rewrite writes_app, Hm, Hf. reflexivity.
Qed.

Lemma find_loop_no_write (n : nat) key seed self :
  writes (tr (find_loop BitHash n key seed self)) = [].
Proof.
  revert seed self. induction n as [|n IH]; intros seed self; cbn [find_loop]; [reflexivity|].
  apply bind_no_write; [reflexivity | intros rawHash s1].
  apply bind_no_write; [reflexivity | intros size s2].
  apply bind_no_write;
    [unfold py_mod; destruct (decide (size = 0)); reflexivity | intros hashVal s3].
  apply bind_no_write.
  - unfold bitVec_get. repeat (apply bind_no_write; [reflexivity | intros ? ?]). reflexivity.
  - intros b s4. destruct b; cbn [negb]; [apply IH | reflexivity].
Qed.

Lemma falsePositiveRate_tr self : tr (@falsePositiveRate Key H self) = [].
Proof.
  unfold falsePositiveRate, numBitsSet, attr, lift, raise, mbind, M_bind, mret, M_ret.
  cbn. destruct (decide (__size self = 0)); cbn; [reflexivity|].
  destruct (int_truediv _ _); reflexivity.
Qed.

Lemma insert_loop_writes (n : nat) key seed self :
  0 < __size self ->
  length (__bitVec self) = Z.to_nat (__size self) ->
  let r := insert_loop BitHash n key seed self in
  Forall (fun p => bit self p = false) (writes (tr r)) /\
  NoDup (writes (tr r)) /\
  Z.of_nat (length (writes (tr r))) = __numBitsSet (st r) - __numBitsSet self.
Proof.
  revert seed self. induction n as [|n IH]; intros seed self Hsize Hlen; cbn zeta.
  - cbn. repeat split; [constructor | constructor | lia].
  - cbn [insert_loop].
    rewrite (bind_ok _ _ _ _ _ _ (insert_probe_run key seed self Hsize Hlen)).
    cbn [tr st out].
    set (pos := BitHash key seed `mod` __size self).
    assert (Hpos : 0 <= pos < __size self) by (apply Z.mod_pos_bound; exact Hsize).
    destruct (IH (BitHash key seed) (set1 self pos)) as (Hzero & Hnodup & Hcount).
    { rewrite set1_size. exact Hsize. }
    { rewrite set1_length, set1_size. exact Hlen. }
    rewrite set1_numBitsSet in Hcount.
    set (t' := tr (insert_loop BitHash n key (BitHash key seed) (set1 self pos))) in *.
    assert (Hzero' : Forall (fun p => bit self p = false) (writes t')).
    { eapply Forall_impl; [exact Hzero|]. cbn. intros p Hp.
      destruct (bit self p) eqn:Hb; [|reflexivity].
      rewrite (set1_bit_kept self pos p Hb) in Hp. discriminate. }
    destruct (bit self pos) eqn:Hb.
    + rewrite writes_app.
      change (writes [EvHash key seed; EvGet pos]) with (@nil Z). cbn [app].
      repeat split; [exact Hzero' | exact Hnodup | lia].
    + rewrite writes_app.
      change (writes [EvHash key seed; EvGet pos; EvSet pos]) with [pos]. cbn [app].
      repeat split.
      * constructor; [exact Hb | exact Hzero'].
      * constructor; [|exact Hnodup]. intros Hin.
        rewrite Forall_forall in Hzero. specialize (Hzero pos Hin).
        rewrite set1_bit_probed in Hzero by lia. discriminate.
      * cbn [length]. lia.
Qed.

Lemma count_ones_fmap (f : Z -> bool) (l : list Z) :
  count_ones (f <$> l) = Z.of_nat (length (List.filter f l)).
Proof.
  induction l as [|p l IH]; [reflexivity|].
  cbn [fmap list_fmap count_ones List.filter]. fold (f <$> l). rewrite IH.
  destruct (f p); cbn [length]; lia.
Qed.

Lemma bitVec_as_bits self :
  well_formed self -> __bitVec self = bit self <$> seqZ 0 (__size self).
Proof.
  intros (Hsz & Hlen & _). apply list_eq. intros i. rewrite list_lookup_fmap.
  destruct (decide (i < length (__bitVec self))%nat) as [Hi|Hi].
  - rewrite (lookup_bit self i Hi), lookup_seqZ_lt by lia. reflexivity.
  - rewrite lookup_ge_None_2, lookup_seqZ_ge by lia. reflexivity.
Qed.

(** X11.  The three methods that query leave the object as it was, in
    every state and whatever they return or raise; [find] writes no bit,
    and [falsePositiveRate] and [numBitsSet] touch neither the bits nor the
    oracle. *)
Theorem queries_only_read self key :
  st (find BitHash key self) = self /\
  writes (tr (find BitHash key self)) = [] /\
  st (@falsePositiveRate Key H self) = self /\
  tr (@falsePositiveRate Key H self) = [] /\
  @numBitsSet Key H self = mkRun [] self (Ok (__numBitsSet self)).
Proof.
  repeat split.
  - apply find_st.
  - rewrite find_unfold. apply find_loop_no_write.
  - apply falsePositiveRate_st.
  - apply falsePositiveRate_tr.
Qed.

(** X12.  On a filter built by [__init__] with a positive size and then
    used by any calls, [numBitsSet()] is the number of distinct positions
    covered by the chains of the inserted keys. *)
Theorem numBitsSet_counts_positions (numKeys numHashes : Z) (maxFalsePositive : float)
    self (cs : list call) :
  __init__ __bitsNeeded numKeys numHashes maxFalsePositive = Ok self ->
  0 < __size self ->
  out (@numBitsSet Key H (perform_all BitHash cs self)) =
    Ok (Z.of_nat (length (List.filter
          (covered BitHash (Z.to_nat numHashes) (__size self) (inserted_keys cs))
          (seqZ 0 (__size self))))).
Proof.
  intros Hinit Hsize.
  destruct (init_well_formed _ _ _ _ Hinit) as (Hwf & _ & Hk & _).
  pose proof (perform_all_well_formed cs self Hwf) as Hwf'.
  unfold numBitsSet, attr. cbn [out]. f_equal.
  destruct Hwf' as (Hsz' & Hlen' & ->).
  rewrite (bitVec_as_bits _ (perform_all_well_formed cs self Hwf)), count_ones_fmap.
  rewrite (perform_all_size cs self Hwf). do 2 f_equal.
  apply List.filter_ext_in. intros p Hp.
  apply list_elem_of_In, elem_of_seqZ in Hp.
  rewrite (perform_all_bit cs self p Hwf Hsize) by lia.
  rewrite (fresh_bit _ _ _ self p Hinit), Hk. reflexivity.
Qed.

(** X13.  On a built filter of positive size, [insert] writes only bits
    that were zero, each at most once, and as many as it adds to the count
    of set bits. *)
Theorem insert_writes_only_zero_bits self key :
  reachable BitHash __bitsNeeded self ->
  0 < __size self ->
  Forall (fun pos => bit self pos = false) (writes (tr (insert BitHash key self))) /\
  NoDup (writes (tr (insert BitHash key self))) /\
  Z.of_nat (length (writes (tr (insert BitHash key self)))) =
    __numBitsSet (st (insert BitHash key self)) - __numBitsSet self.
Proof.
  intros Hr Hsize. destruct (reachable_well_formed self Hr) as (_ & Hlen & _).
  rewrite insert_unfold. apply (insert_loop_writes _ key 0 self Hsize Hlen).
Qed.

End Properties.

(** ** Closed instances *)

Lemma small_filter_reachable : reachable sum_hash four_per_key small_filter.
Proof. apply (reachable_init sum_hash four_per_key 2 2 tt). reflexivity. Qed.

Lemma used_filter_reachable : reachable sum_hash four_per_key used_filter.
Proof. apply reachable_perform_all, small_filter_reachable. Qed.

(** C1 at the small filter: key 1 is found after its insert and after
    further inserts and queries. *)
Lemma no_false_negatives_witness :
  reachable sum_hash four_per_key small_filter /\
  0 < __size small_filter /\
  out (find sum_hash 1 (perform_all sum_hash [Insert 1] small_filter)) = Ok true /\
  out (find sum_hash 1
         (perform_all sum_hash [Insert 1; Insert 9; Find 3; Insert 4] small_filter)) = Ok true.
Proof.
  split; [exact small_filter_reachable|]. split; [reflexivity|]. split.
  - apply (no_false_negatives sum_hash four_per_key small_filter 1 []);
      [exact small_filter_reachable | reflexivity].
  - apply (no_false_negatives sum_hash four_per_key small_filter 1 [Insert 9; Find 3; Insert 4]);
      [exact small_filter_reachable | reflexivity].
Defined.

(** C2 at the used filter: four bits are set and counted, and a probe of a
    zero bit counts one more. *)
Lemma counter_invariant_witness :
  reachable sum_hash four_per_key used_filter /\
  __numBitsSet used_filter = count_ones (__bitVec used_filter) /\
  0 < __size used_filter /\
  bit used_filter (sum_hash 3 0 `mod` __size used_filter) = false /\
  __numBitsSet (st (insert_probe sum_hash 3 0 used_filter)) = __numBitsSet used_filter + 1.
Proof.
  split; [exact used_filter_reachable|].
  pose proof (counter_invariant sum_hash four_per_key used_filter used_filter_reachable)
    as [Hcount Hprobe].
  split; [exact Hcount|]. split; [reflexivity|]. split; [reflexivity|].
  apply (Hprobe 3 0); reflexivity.
Defined.

(** C5 at the small filter. *)
Lemma monotonic_fill_witness :
  reachable sum_hash four_per_key small_filter /\
  __size (perform_all sum_hash [Insert 1; Insert 9; Insert 4] small_filter) = __size small_filter.
Proof.
  split; [exact small_filter_reachable|].
  apply (monotonic_fill sum_hash four_per_key small_filter [Insert 1; Insert 9; Insert 4]).
  exact small_filter_reachable.
Defined.

(** C7 as the claim words it fails: on the empty small filter, two probes
    per key, [find 1] answers [False] after one call of the oracle. *)
Lemma find_stops_early :
  reachable sum_hash four_per_key small_filter /\
  __numHashes small_filter = 2 /\
  out (find sum_hash 1 small_filter) = Ok false /\
  hash_calls (tr (find sum_hash 1 small_filter)) = [(1, 0)] /\
  hash_calls (tr (insert sum_hash 1 small_filter)) = [(1, 0); (1, 1)].
Proof.
  split; [exact small_filter_reachable|].
  repeat (split; [reflexivity|]). reflexivity.
Qed.

(** C7, as the code has it, at the used filter: [insert 3] and the
    successful [find 9] both call the oracle twice. *)
Lemma oracle_calls_witness :
  reachable sum_hash four_per_key used_filter /\
  0 < __size used_filter /\
  length (hash_calls (tr (insert sum_hash 3 used_filter))) = Z.to_nat (__numHashes used_filter) /\
  out (find sum_hash 9 used_filter) = Ok true /\
  length (hash_calls (tr (find sum_hash 9 used_filter))) = Z.to_nat (__numHashes used_filter).
Proof.
  split; [exact used_filter_reachable|]. split; [reflexivity|].
  pose proof (oracle_calls sum_hash four_per_key used_filter 9 used_filter_reachable eq_refl)
    as (_ & _ & _ & Htrue & _).
  split; [apply (oracle_calls sum_hash four_per_key used_filter 3 used_filter_reachable eq_refl)|].
  split; [reflexivity | apply Htrue; reflexivity].
Defined.

(** C8 at the used filter. *)
Lemma total_safety_witness :
  reachable sum_hash four_per_key used_filter /\
  0 < __size used_filter /\
  out (insert sum_hash 3 used_filter) = Ok tt.
Proof.
  split; [exact used_filter_reachable|]. split; [reflexivity|].
  apply (total_safety sum_hash four_per_key used_filter 3 used_filter_reachable eq_refl).
Defined.

(** C9 as the claim words it fails: no [insert 1] happens between the two
    calls of [find 1], yet the first answers [False] and the second [True],
    because [insert 9] sets the two bits of key 1. *)
Lemma find_changes_after_other_insert :
  reachable sum_hash four_per_key small_filter /\
  out (find sum_hash 1 small_filter) = Ok false /\
  out (find sum_hash 1 (perform_all sum_hash [Insert 9] (st (find sum_hash 1 small_filter)))) =
    Ok true.
Proof.
  split; [exact small_filter_reachable|].
  split; reflexivity.
Qed.

(** C9, as the code has it: queries in between change nothing, and key 9,
    found in the used filter, is still found after another insert. *)
Lemma find_deterministic_witness :
  forallb is_query [Find 9; FalsePositiveRate; NumBitsSet] = true /\
  out (find sum_hash 1
         (perform_all sum_hash [Find 9; FalsePositiveRate; NumBitsSet]
            (st (find sum_hash 1 small_filter)))) = out (find sum_hash 1 small_filter) /\
  out (find sum_hash 9 used_filter) = Ok true /\
  out (find sum_hash 9 (perform_all sum_hash [Insert 3; Find 2] used_filter)) = Ok true.
Proof.
  split; [reflexivity|]. split.
  - apply (find_deterministic sum_hash four_per_key small_filter 1
             [Find 9; FalsePositiveRate; NumBitsSet]). reflexivity.
  - split; [reflexivity|].
    apply (find_deterministic sum_hash four_per_key used_filter 9 [Insert 3; Find 2]);
      [exact used_filter_reachable | reflexivity | reflexivity].
Defined.

(** C10 at the small filter. *)
Lemma insert_idempotent_witness :
  reachable sum_hash four_per_key small_filter /\
  perform_all sum_hash [Insert 1; Insert 1] small_filter =
    perform_all sum_hash [Insert 1] small_filter.
Proof.
  split; [exact small_filter_reachable|].
  apply (insert_idempotent sum_hash four_per_key small_filter 1 [] small_filter_reachable).
Defined.

(** ** Closed instances of the further properties *)

Lemma small_filter_built : __init__ four_per_key 2 2 tt = Ok small_filter.
Proof. reflexivity. Qed.

Lemma same_keys_example (key : Z) :
  key ∈ inserted_keys [Insert 1; Insert 9; Find 3; Insert 1] <->
  key ∈ inserted_keys [Insert 9; Insert 1].
Proof.
  cbn. split; intros Hin;
    repeat (apply elem_of_cons in Hin as [->|Hin]);
    try (apply elem_of_nil in Hin; destruct Hin);
    repeat constructor.
Qed.

(** X1 at the small filter: [insert 1] sets bit 2 and leaves bit 3. *)
Lemma insert_sets_exactly_the_chain_witness :
  reachable sum_hash four_per_key small_filter /\
  0 < __size small_filter /\
  bit (st (insert sum_hash 1 small_filter)) 2 = true /\
  bit (st (insert sum_hash 1 small_filter)) 3 =
    bit small_filter 3 ||
    bool_decide (3 ∈ hash_indices sum_hash (Z.to_nat (__numHashes small_filter)) 1 0
                       (__size small_filter)).
Proof.
  split; [exact small_filter_reachable|]. split; [reflexivity|]. split; [reflexivity|].
  apply (insert_sets_exactly_the_chain sum_hash four_per_key small_filter 1 3
           small_filter_reachable eq_refl). lia.
Defined.

(** X2 at the small filter: after [insert 9], key 1 is found, its two
    positions being those of key 9. *)
Lemma find_answer_witness :
  __init__ four_per_key 2 2 tt = Ok small_filter /\
  0 < __size small_filter /\
  out (find sum_hash 1 (perform_all sum_hash [Insert 9] small_filter)) =
    Ok (forallb (covered sum_hash (Z.to_nat 2) (__size small_filter) (inserted_keys [Insert 9]))
          (hash_indices sum_hash (Z.to_nat 2) 1 0 (__size small_filter))).
Proof.
  split; [exact small_filter_built|]. split; [reflexivity|].
  apply (find_answer sum_hash four_per_key 2 2 tt small_filter [Insert 9] 1 small_filter_built).
  reflexivity.
Defined.

(** X3 at the small filter: two orders, a repetition and a query. *)
Lemma same_keys_same_filter_witness :
  reachable sum_hash four_per_key small_filter /\
  perform_all sum_hash [Insert 1; Insert 9; Find 3; Insert 1] small_filter =
    perform_all sum_hash [Insert 9; Insert 1] small_filter.
Proof.
  split; [exact small_filter_reachable|].
  apply (same_keys_same_filter sum_hash four_per_key small_filter
           [Insert 1; Insert 9; Find 3; Insert 1] [Insert 9; Insert 1]
           small_filter_reachable same_keys_example).
Defined.

(** X4 at the used filter: key 9 is found and its insert changes nothing;
    key 3 is not and its insert sets a bit. *)
Lemma insert_changes_iff_not_found_witness :
  reachable sum_hash four_per_key used_filter /\
  0 < __size used_filter /\
  out (find sum_hash 9 used_filter) = Ok true /\
  st (insert sum_hash 9 used_filter) = used_filter /\
  out (find sum_hash 3 used_filter) = Ok false /\
  __numBitsSet used_filter < __numBitsSet (st (insert sum_hash 3 used_filter)).
Proof.
  split; [exact used_filter_reachable|]. split; [reflexivity|]. split; [reflexivity|].
  split.
  - apply (insert_changes_iff_not_found sum_hash four_per_key used_filter 9
             used_filter_reachable eq_refl). reflexivity.
  - split; [reflexivity|].
    apply (insert_changes_iff_not_found sum_hash four_per_key used_filter 3
             used_filter_reachable eq_refl). reflexivity.
Defined.

(** X5 at the small filter. *)
Lemma fill_bound_witness :
  reachable sum_hash four_per_key small_filter /\
  __numBitsSet (perform_all sum_hash [Insert 1; Insert 9; Insert 4] small_filter) <=
    __numBitsSet small_filter +
    Z.of_nat (length (inserted_keys [Insert 1; Insert 9; Insert 4])) *
    Z.max 0 (__numHashes small_filter).
Proof.
  split; [exact small_filter_reachable|].
  apply (fill_bound sum_hash four_per_key small_filter [Insert 1; Insert 9; Insert 4]
           small_filter_reachable).
Defined.

(** X6 at the small filter. *)
Lemma fresh_filter_finds_nothing_witness :
  __init__ four_per_key 2 2 tt = Ok small_filter /\
  0 < __size small_filter /\
  out (find sum_hash 5 small_filter) = Ok false.
Proof.
  split; [exact small_filter_built|]. split; [reflexivity|].
  apply (fresh_filter_finds_nothing sum_hash four_per_key 2 2 tt small_filter 5
           small_filter_built eq_refl eq_refl).
Defined.

(** X7 at the filter the sizing [no_bits] gives. *)
Lemma no_bits_raises_witness :
  __init__ no_bits 2 2 tt = Ok empty_filter /\
  __size empty_filter = 0 /\
  0 < __numHashes empty_filter /\
  insert sum_hash 5 empty_filter = mkRun [EvHash 5 0] empty_filter (Raise ZeroDivisionError).
Proof.
  split; [reflexivity|]. split; [reflexivity|]. split; [reflexivity|].
  apply (no_bits_raises sum_hash empty_filter 5 eq_refl eq_refl).
Defined.

(** X8 at a filter built with no hash. *)
Lemma no_hashes_finds_everything_witness :
  __init__ four_per_key 2 0 tt = Ok no_probe_filter /\
  __numHashes no_probe_filter <= 0 /\
  find sum_hash 5 no_probe_filter = mkRun [] no_probe_filter (Ok true).
Proof.
  split; [reflexivity|].
  assert (Hk : __numHashes no_probe_filter <= 0) by (cbn; lia).
  split; [exact Hk|].
  apply (no_hashes_finds_everything sum_hash no_probe_filter 5 Hk).
Defined.

(** X10 for a word list of three lines, the end of file read as line 0. *)
Lemma main_completes_witness :
  four_per_key 100000 4 tt = Ok 400000 /\
  0 < 400000 /\
  exists rate foundWords percentage,
    __main sum_hash four_per_key 0 tt [1; 9; 4] =
      ([Print_rate rate; Print_missing 0; Print_found foundWords;
        Print_percentage percentage], Ok tt) /\
    0 <= foundWords <= 100000.
Proof.
  split; [reflexivity|]. split; [reflexivity|].
  apply (main_completes sum_hash four_per_key 0 400000 tt [1; 9; 4] eq_refl eq_refl).
  - intros a _. exists tt. reflexivity.
  - intros a prop _ _. exists tt. reflexivity.
  - intros a _. exists tt. reflexivity.
Defined.

(** X12 at the small filter: three inserts cover four positions. *)
Lemma numBitsSet_counts_positions_witness :
  __init__ four_per_key 2 2 tt = Ok small_filter /\
  0 < __size small_filter /\
  out (@numBitsSet Z unit_float
         (perform_all sum_hash [Insert 1; Insert 9; Insert 4] small_filter)) =
    Ok (Z.of_nat (length (List.filter
          (covered sum_hash (Z.to_nat 2) (__size small_filter)
             (inserted_keys [Insert 1; Insert 9; Insert 4]))
          (seqZ 0 (__size small_filter))))) /\
  out (@numBitsSet Z unit_float
         (perform_all sum_hash [Insert 1; Insert 9; Insert 4] small_filter)) = Ok 4.
Proof.
  split; [exact small_filter_built|]. split; [reflexivity|]. split; [|reflexivity].
  apply (numBitsSet_counts_positions sum_hash four_per_key 2 2 tt small_filter
           [Insert 1; Insert 9; Insert 4] small_filter_built eq_refl).
Defined.

(** X13 at the used filter: [insert 5] probes bits 5 and 2; it writes bit
    5, and bit 2, set already, is not written. *)
Lemma insert_writes_only_zero_bits_witness :
  reachable sum_hash four_per_key used_filter /\
  0 < __size used_filter /\
  reads (tr (insert sum_hash 5 used_filter)) = [5; 2] /\
  writes (tr (insert sum_hash 5 used_filter)) = [5] /\
  Z.of_nat (length (writes (tr (insert sum_hash 5 used_filter)))) =
    __numBitsSet (st (insert sum_hash 5 used_filter)) - __numBitsSet used_filter.
Proof.
  split; [exact used_filter_reachable|]. split; [reflexivity|]. split; [reflexivity|].
  split; [reflexivity|].
  apply (insert_writes_only_zero_bits sum_hash four_per_key used_filter 5
           used_filter_reachable eq_refl).
Defined.
